(** * Interpolation consistency check for sounding profiles

    A shallow embedding of [ProfileCheckInterpolation::runCheck] (ufo,
    Met Office profile QC) and the properties of its decision loop.

    - C++ [int] values are integers of [Z]; [++] wraps at 32 bits.
    - C++ [float] values live in an abstract type with the operations the
      check uses ([FloatOps]); [Binary32] instantiates them with IEEE 754
      single precision.
    - [std::vector] values are lists; an access outside the vector has no
      defined behaviour and yields [None].
    - [oops::Log] output is a list of log entries carried in the state. *)

From Stdlib Require Import ZArith Lia Bool String.
From Corelib Require Import SpecFloat.
From stdpp Require Import base tactics option list list_numbers sets.

Local Open Scope Z_scope.

(** ** Machine integers *)

Module Int32.

Definition min_int : Z := - 2 ^ 31.
Definition max_int : Z := 2 ^ 31 - 1.

(** Two's complement reduction of an integer to 32 bits. *)
Definition wrap (z : Z) : Z := (z + 2 ^ 31) mod 2 ^ 32 - 2 ^ 31.

(** [x++] on an [int]. *)
Definition incr (z : Z) : Z := wrap (z + 1).

Definition in_range (z : Z) : Prop := min_int ≤ z ≤ max_int.

End Int32.

(** ** Floating point interface

    The operations of C++ [float] that [runCheck] uses. *)

Class FloatOps (F : Type) := {
  fadd : F → F → F;
  fsub : F → F → F;
  fmul : F → F → F;
  fdiv : F → F → F;
  fabs : F → F;                (* std::abs *)
  fltb : F → F → bool;         (* x < y *)
  fleb : F → F → bool;         (* x <= y *)
  feqb : F → F → bool;         (* x == y *)
  f_one : F;                   (* the literal 1.0 as a float *)
  f_of_int : Z → F;            (* conversion of an int to float *)
  round_hPa : F → option Z;    (* int(std::round(p * 0.01)); None when the
                                  rounded value is not an int *)
  hPa_to_Pa : F → F;           (* float(g * 100.0) *)
}.

(** [x > y] *)
Definition fgtb {F} `{FloatOps F} (x y : F) : bool := fltb y x.

(** ** IEEE 754 single precision *)

Module Binary32.

Definition prec : Z := 24.
Definition emax : Z := 128.
Definition dprec : Z := 53.
Definition demax : Z := 1024.

Definition float : Type := spec_float.

Definition of_Z (z : Z) : float := binary_normalize prec emax z 0 false.
Definition double_of_Z (z : Z) : spec_float := binary_normalize dprec demax z 0 false.

(** The double literals [0.01] and [100.0]. *)
Definition d_0_01 : spec_float := S754_finite false 5764607523034235 (-59).
Definition d_100 : spec_float := double_of_Z 100.

(** Narrowing of a double to a float, to nearest even. *)
Definition of_double (d : spec_float) : float :=
  match d with
  | S754_finite s m e => binary_round prec emax s m e
  | _ => d
  end.

(** [std::round] on a finite value [m * 2^e]: nearest integer, halves
    away from zero. *)
Definition round_half_away (m : positive) (e : Z) : Z :=
  if 0 <=? e then Z.pos m * 2 ^ e
  else (2 * Z.pos m + 2 ^ (- e)) / (2 * 2 ^ (- e)).

Definition to_int (z : Z) : option Z :=
  if (Int32.min_int <=? z) && (z <=? Int32.max_int) then Some z else None.

Definition round_to_int (d : spec_float) : option Z :=
  match d with
  | S754_zero _ => Some 0
  | S754_finite s m e =>
      let r := round_half_away m e in to_int (if s then - r else r)
  | _ => None
  end.

#[export] Instance ops : FloatOps float := {
  fadd := SFadd prec emax;
  fsub := SFsub prec emax;
  fmul := SFmul prec emax;
  fdiv := SFdiv prec emax;
  fabs := SFabs;
  fltb := SFltb;
  fleb := SFleb;
  feqb := SFeqb;
  f_one := of_Z 1;
  f_of_int := of_Z;
  round_hPa p := round_to_int (SFmul dprec demax p d_0_01);
  hPa_to_Pa g := of_double (SFmul dprec demax g d_100);
}.

End Binary32.

(** ** Vectors indexed by [int] *)

Section Vec.
Context {A : Type}.

(** [v[i]] as an rvalue. *)
Definition vec_get (v : list A) (i : Z) : option A :=
  if decide (0 ≤ i) then v !! Z.to_nat i else None.

(** [v[i] = f(v[i])]. *)
Definition vec_upd (f : A → A) (v : list A) (i : Z) : option (list A) :=
  match vec_get v i with
  | Some _ => Some (alter f (Z.to_nat i) v)
  | None => None
  end.

(** [v[i] = x]. *)
Definition vec_set (v : list A) (i : Z) (x : A) : option (list A) :=
  vec_upd (λ _, x) v i.

(** The vector after [v[i] = f(v[i])], as a total function for the
    proofs: nothing changes when [i] is not an index of [v]. *)
Definition vec_alter (f : A → A) (i : Z) (v : list A) : list A :=
  if decide (0 ≤ i) then alter f (Z.to_nat i) v else v.

(** The same at each index of [idx] in turn. *)
Definition vec_alter_all (f : A → A) (idx : list Z) (v : list A) : list A :=
  foldl (λ l i, vec_alter f i l) v idx.

End Vec.

(** [v.assign(n, x)] with an [int] count; a negative count converts to a
    size no vector can have, and the call does not return. *)
Definition vec_assign {A} (n : Z) (x : A) : option (list A) :=
  if decide (0 ≤ n) then Some (replicate (Z.to_nat n) x) else None.

(** [oops::anyVectorEmpty] and [oops::allVectorsSameSize], on the sizes of
    their arguments. *)
Definition anyVectorEmpty (sizes : list nat) : bool :=
  existsb (λ n, Nat.eqb n 0) sizes.

Definition allVectorsSameSize (sizes : list nat) : bool :=
  match sizes with
  | [] => true
  | n :: ns => forallb (Nat.eqb n) ns
  end.

(** ** Data of the check *)

(** What the check writes to [oops::Log]: debug and warning lines, and
    the report of a failed level (lines 120-137), of which the three levels
    are kept and the printed values are not. *)
Inductive LogEntry :=
| Debug (msg : string)
| Warning (msg : string)
| DebugFailed (jlev SigB SigA : Z).

(** The options of [ProfileConsistencyCheckParameters] read by the check. *)
Record Options (F : Type) := {
  ICheck_BigGapInit : F;
  ICheck_TInterpTol : F;
  ICheck_TolRelaxPThresh : F;
  ICheck_TolRelax : F;
}.
Arguments ICheck_BigGapInit {F} _.
Arguments ICheck_TInterpTol {F} _.
Arguments ICheck_TolRelaxPThresh {F} _.
Arguments ICheck_TolRelax {F} _.

(** The members of the base class [ProfileStandardLevels]: the band
    table copied from the options (thresholds and gaps in hPa, float
    vectors like the options they come from) and the classification that
    [calcStdLevels] fills in. *)
Record StdLevels (F : Type) := {
  StandardLevels_ : list F;
  BigGaps_ : list F;
  NumStd_ : Z;
  NumSig_ : Z;
  StdLev_ : list Z;
  SigAbove_ : list Z;
  SigBelow_ : list Z;
  IndStd_ : list Z;
  LogP_ : list F;
}.
Arguments StandardLevels_ {F} _.
Arguments BigGaps_ {F} _.
Arguments NumStd_ {F} _.
Arguments NumSig_ {F} _.
Arguments StdLev_ {F} _.
Arguments SigAbove_ {F} _.
Arguments SigBelow_ {F} _.
Arguments IndStd_ {F} _.
Arguments LogP_ {F} _.

(** What [runCheck] reads and never writes: the number of levels to check
    of [profileIndices_], the constant vectors of the data handler and the
    options. *)
Record Inputs (F : Type) := {
  numLevelsToCheck : Z;
  pressures : list F;
  tObs : list F;
  tBkg : list F;
  tObsCorrection : list F;
  options_ : Options F;
}.
Arguments numLevelsToCheck {F} _.
Arguments pressures {F} _.
Arguments tObs {F} _.
Arguments tBkg {F} _.
Arguments tObsCorrection {F} _.
Arguments options_ {F} _.

(** What [runCheck] may write: the flags and counters of the data handler,
    the members of the check object, and the log. *)
Record State (F : Type) := {
  tFlags : list Z;
  NumAnyErrors : list Z;
  NumInterpErrors : list Z;
  NumInterpErrObs : list Z;
  levels : StdLevels F;
  LevErrors_ : list Z;
  tInterp_ : list F;
  log : list LogEntry;
}.
Arguments tFlags {F} _.
Arguments NumAnyErrors {F} _.
Arguments NumInterpErrors {F} _.
Arguments NumInterpErrObs {F} _.
Arguments levels {F} _.
Arguments LevErrors_ {F} _.
Arguments tInterp_ {F} _.
Arguments log {F} _.

(** Constants and functions that [runCheck] uses and whose declarations
    are outside the files at hand: the two flag masks of
    [ufo::FlagsProfile], the missing value indicator, [correctVector] of
    the base check and [calcStdLevels] of [ProfileStandardLevels], which
    fills the classification members from the number of levels, the
    pressures, the corrected observations and the flags, and writes
    nothing else. *)
Class Externals (F : Type) := {
  SurfaceLevelFlag : Z;
  InterpolationFlag : Z;
  missingValueFloat : F;
  correctVector : list F → list F → list F;
  calcStdLevels : Z → list F → list F → list Z → StdLevels F → StdLevels F;
}.

Definition warn_empty : string :=
  "At least one vector is empty. Check will not be performed.".
Definition warn_size : string :=
  "Not all vectors have the same size. Check will not be performed.".

(** What one iteration of the loop over the standard levels comes to: a
    [continue], or an interpolated value [v] for level [jlev] between the
    levels [SigB] and [SigA], within tolerance or not. *)
Inductive Outcome (F : Type) :=
| Skipped
| Evaluated (jlev SigB SigA : Z) (v : F) (failed : bool).
Arguments Skipped {F}.
Arguments Evaluated {F} _ _ _ _ _.

(** The variables that [fillValidator] hands to the data handler, by the
    names of [ufo::VariableNames] it passes to [set]. *)
Inductive VarName :=
| name_StdLev
| name_SigAbove
| name_SigBelow
| name_IndStd
| name_LevErrors
| name_tInterp
| name_LogP
| name_NumStd
| name_NumSig.

#[export] Instance VarName_eq_dec : EqDecision VarName.
Proof. solve_decision. Defined.

(** A vector passed to [ProfileDataHandler::set]. *)
Inductive Value (F : Type) :=
| IntVec (v : list Z)
| FloatVec (v : list F).
Arguments IntVec {F} _.
Arguments FloatVec {F} _.

Definition entries {F} (v : Value F) : nat :=
  match v with
  | IntVec l => length l
  | FloatVec l => length l
  end.

(** What a call of [fillValidator] does to the data handler: the calls of
    [set] it makes, in order, and whether it comes to its end. *)
Record Published (F : Type) := {
  sets : list (VarName * Value F);
  returned : bool;
}.
Arguments sets {F} _.
Arguments returned {F} _.

(** ** The check *)

Section Model.
Context {F : Type} {FO : FloatOps F} {EX : Externals F}.

(** Lines 80-86: the scan of the band table, [i] running over the indices
    of [StandardLevels_]. *)
Fixpoint scan_bands (SL BG : list F) (IPStd : Z) (BigGap : F) (idx : list nat)
  : option F :=
  match idx with
  | [] => Some BigGap
  | i :: idx' =>
      s ← SL !! i;
      if fleb s (f_of_int IPStd)
      then g ← BG !! i; Some (hPa_to_Pa g)
      else scan_bands SL BG IPStd BigGap idx'
  end.

Definition select_BigGap (opts : Options F) (cls : StdLevels F) (IPStd : Z)
  : option F :=
  scan_bands (StandardLevels_ cls) (BigGaps_ cls) IPStd (ICheck_BigGapInit opts)
             (seq 0 (length (StandardLevels_ cls))).

(** The selection in the words of the design, for comparison with
    [select_BigGap]: the gap of the first band whose threshold is at least
    the rounded pressure, in Pa, and the initial gap when there is none. *)
Definition design_BigGap (opts : Options F) (cls : StdLevels F) (IPStd : Z)
  : option F :=
  match list_find (λ sg : F * F, fleb (f_of_int IPStd) sg.1 = true)
                  (zip (StandardLevels_ cls) (BigGaps_ cls)) with
  | Some (_, (_, g)) => Some (hPa_to_Pa g)
  | None => Some (ICheck_BigGapInit opts)
  end.

(** A band matches when its threshold is at most the rounded pressure
    (line 82). *)
Definition band_matches (IPStd : Z) (s : F) : bool := fleb s (f_of_int IPStd).

(** Band [i] is the first one of the table that matches. *)
Definition first_match (SL : list F) (IPStd : Z) (i : nat) : Prop :=
  (∃ s, SL !! i = Some s ∧ band_matches IPStd s = true) ∧
  ∀ k s', (k < i)%nat → SL !! k = Some s' → band_matches IPStd s' = false.

(** [tFlags[i] |= InterpolationFlag] *)
Definition set_interp (f : Z) : Z := Z.lor f InterpolationFlag.

(** Lines 96-99. *)
Definition interpolate (lJ lB lA tB tA : F) : F :=
  let Ratio := fdiv (fsub lJ lB) (fsub lA lB) in
  fadd tB (fmul (fsub tA tB) Ratio).

(** Lines 102-104. *)
Definition tol_relax (opts : Options F) (PStd : F) : F :=
  if fltb PStd (ICheck_TolRelaxPThresh opts) then ICheck_TolRelax opts else f_one.

(** Lines 70-138: one iteration of the loop over the standard levels, on
    the state and the local [NumErrors]. A [continue] leaves both as they
    are. *)
Definition body (inp : Inputs F) (cls : StdLevels F) (tObsFinal : list F)
    (jlevstd : Z) (sn : State F * Z) : option (State F * Z) :=
  let '(st, NumErrors) := sn in
  jlev ← vec_get (StdLev_ cls) jlevstd;
  fl ← vec_get (tFlags st) jlev;
  if negb (Z.land fl SurfaceLevelFlag =? 0) then Some sn else
  SigB ← vec_get (SigBelow_ cls) jlevstd;
  SigA ← vec_get (SigAbove_ cls) jlevstd;
  PStd ← vec_get (pressures inp) jlev;
  IPStd ← round_hPa PStd;
  BigGap ← select_BigGap (options_ inp) cls IPStd;
  if NumSig_ cls <? Z.max 3 (NumStd_ cls ÷ 2) then Some sn else
  if (SigB =? -1) || (SigA =? -1) then Some sn else
  pB ← vec_get (pressures inp) SigB;
  if fgtb (fsub pB PStd) BigGap then Some sn else
  pA ← vec_get (pressures inp) SigA;
  if fgtb (fsub PStd pA) BigGap then Some sn else
  lB ← vec_get (LogP_ cls) SigB;
  lA ← vec_get (LogP_ cls) SigA;
  if feqb lB lA then Some sn else
  lJ ← vec_get (LogP_ cls) jlev;
  tB ← vec_get tObsFinal SigB;
  tA ← vec_get tObsFinal SigA;
  let v := interpolate lJ lB lA tB tA in
  ti ← vec_set (tInterp_ st) jlev v;
  tJ ← vec_get tObsFinal jlev;
  let TolRelax := tol_relax (options_ inp) PStd in
  if fgtb (fabs (fsub tJ v)) (fmul (ICheck_TInterpTol (options_ inp)) TolRelax)
  then
    na ← vec_upd Int32.incr (NumAnyErrors st) 0;
    ni ← vec_upd Int32.incr (NumInterpErrors st) 0;
    fl1 ← vec_upd set_interp (tFlags st) jlev;
    fl2 ← vec_upd set_interp fl1 SigB;
    fl3 ← vec_upd set_interp fl2 SigA;
    le1 ← vec_upd Int32.incr (LevErrors_ st) jlev;
    le2 ← vec_upd Int32.incr le1 SigB;
    le3 ← vec_upd Int32.incr le2 SigA;
    _ ← vec_get (tBkg inp) jlev;
    _ ← vec_get (tBkg inp) SigB;
    _ ← vec_get (tBkg inp) SigA;
    Some ({| tFlags := fl3; NumAnyErrors := na; NumInterpErrors := ni;
             NumInterpErrObs := NumInterpErrObs st; levels := levels st;
             LevErrors_ := le3; tInterp_ := ti;
             log := log st ++ [DebugFailed jlev SigB SigA] |},
          Int32.incr NumErrors)
  else
    Some ({| tFlags := tFlags st; NumAnyErrors := NumAnyErrors st;
             NumInterpErrors := NumInterpErrors st;
             NumInterpErrObs := NumInterpErrObs st; levels := levels st;
             LevErrors_ := LevErrors_ st; tInterp_ := ti; log := log st |},
          NumErrors).

(** The guards of one iteration, in the words of the design: what the
    iteration reads first (lines 70-86), and the conditions under which it
    goes on to the next level. *)
Definition first_reads (inp : Inputs F) (cls : StdLevels F) (flags : list Z)
    (jlevstd jlev fl SigB SigA : Z) (PStd BigGap : F) : Prop :=
  vec_get (StdLev_ cls) jlevstd = Some jlev ∧
  vec_get flags jlev = Some fl ∧
  vec_get (SigBelow_ cls) jlevstd = Some SigB ∧
  vec_get (SigAbove_ cls) jlevstd = Some SigA ∧
  vec_get (pressures inp) jlev = Some PStd ∧
  ∃ IPStd, round_hPa PStd = Some IPStd ∧
           select_BigGap (options_ inp) cls IPStd = Some BigGap.

(** Line 72. *)
Definition surface_level (cls : StdLevels F) (flags : list Z) (jlevstd : Z)
  : Prop :=
  ∃ jlev fl, vec_get (StdLev_ cls) jlevstd = Some jlev ∧
             vec_get flags jlev = Some fl ∧
             Z.land fl SurfaceLevelFlag ≠ 0.

(** Line 88. *)
Definition too_few_sig (cls : StdLevels F) : Prop :=
  NumSig_ cls < Z.max 3 (NumStd_ cls ÷ 2).

(** Line 90. *)
Definition bracket_missing (SigB SigA : Z) : Prop := SigB = -1 ∨ SigA = -1.

(** Lines 92-93. *)
Definition gap_below (inp : Inputs F) (SigB : Z) (PStd BigGap : F) : Prop :=
  ∃ pB, vec_get (pressures inp) SigB = Some pB ∧
        fgtb (fsub pB PStd) BigGap = true.

Definition gap_above (inp : Inputs F) (SigB SigA : Z) (PStd BigGap : F) : Prop :=
  ∃ pB pA, vec_get (pressures inp) SigB = Some pB ∧
           vec_get (pressures inp) SigA = Some pA ∧
           fgtb (fsub PStd pA) BigGap = true.

(** Line 94. *)
Definition same_LogP (inp : Inputs F) (cls : StdLevels F) (SigB SigA : Z) : Prop :=
  ∃ pB pA lB lA, vec_get (pressures inp) SigB = Some pB ∧
                 vec_get (pressures inp) SigA = Some pA ∧
                 vec_get (LogP_ cls) SigB = Some lB ∧
                 vec_get (LogP_ cls) SigA = Some lA ∧
                 feqb lB lA = true.

(** Lines 88-94: one of the guards after the surface test holds. *)
Definition guard_skips (inp : Inputs F) (cls : StdLevels F) (flags : list Z)
    (jlevstd : Z) : Prop :=
  ∃ jlev fl SigB SigA PStd BigGap,
    first_reads inp cls flags jlevstd jlev fl SigB SigA PStd BigGap ∧
    (too_few_sig cls ∨ bracket_missing SigB SigA ∨
     gap_below inp SigB PStd BigGap ∨ gap_above inp SigB SigA PStd BigGap ∨
     same_LogP inp cls SigB SigA).

(** The level passes every guard (lines 72-94) and the values of lines
    96-105 can be read. *)
Definition evaluated_level (inp : Inputs F) (cls : StdLevels F)
    (tObsFinal : list F) (flags : list Z) (jlevstd jlev SigB SigA : Z)
    (PStd lJ lB lA tJ tB tA : F) : Prop :=
  ∃ fl BigGap pB pA,
    first_reads inp cls flags jlevstd jlev fl SigB SigA PStd BigGap ∧
    Z.land fl SurfaceLevelFlag = 0 ∧
    ¬ too_few_sig cls ∧ SigB ≠ -1 ∧ SigA ≠ -1 ∧
    vec_get (pressures inp) SigB = Some pB ∧
    fgtb (fsub pB PStd) BigGap = false ∧
    vec_get (pressures inp) SigA = Some pA ∧
    fgtb (fsub PStd pA) BigGap = false ∧
    vec_get (LogP_ cls) SigB = Some lB ∧
    vec_get (LogP_ cls) SigA = Some lA ∧
    feqb lB lA = false ∧
    vec_get (LogP_ cls) jlev = Some lJ ∧
    vec_get tObsFinal SigB = Some tB ∧
    vec_get tObsFinal SigA = Some tA ∧
    vec_get tObsFinal jlev = Some tJ.

(** Line 105: the tolerance test. *)
Definition out_of_tolerance (opts : Options F) (PStd tJ ti : F) : bool :=
  fgtb (fabs (fsub tJ ti)) (fmul (ICheck_TInterpTol opts) (tol_relax opts PStd)).

(** The entries that lines 99-137 write or print exist. *)
Definition writable (inp : Inputs F) (st : State F) (jlev SigB SigA : Z) : Prop :=
  0 ≤ jlev < Z.of_nat (length (tInterp_ st)) ∧
  (0 < length (NumAnyErrors st))%nat ∧
  (0 < length (NumInterpErrors st))%nat ∧
  ∀ i, i ∈ [jlev; SigB; SigA] →
       0 ≤ i < Z.of_nat (length (tFlags st)) ∧
       0 ≤ i < Z.of_nat (length (LevErrors_ st)) ∧
       0 ≤ i < Z.of_nat (length (tBkg inp)).

(** The state and [NumErrors] after the writes of a level within
    tolerance (line 99) and of a level out of tolerance (lines 99-118). *)
Definition after_pass (st : State F) (jlev : Z) (v : F) : State F :=
  {| tFlags := tFlags st; NumAnyErrors := NumAnyErrors st;
     NumInterpErrors := NumInterpErrors st;
     NumInterpErrObs := NumInterpErrObs st; levels := levels st;
     LevErrors_ := LevErrors_ st;
     tInterp_ := vec_alter (λ _, v) jlev (tInterp_ st); log := log st |}.

Definition after_failure (st : State F) (jlev SigB SigA : Z) (v : F) : State F :=
  {| tFlags := vec_alter_all set_interp [jlev; SigB; SigA] (tFlags st);
     NumAnyErrors := vec_alter Int32.incr 0 (NumAnyErrors st);
     NumInterpErrors := vec_alter Int32.incr 0 (NumInterpErrors st);
     NumInterpErrObs := NumInterpErrObs st; levels := levels st;
     LevErrors_ := vec_alter_all Int32.incr [jlev; SigB; SigA] (LevErrors_ st);
     tInterp_ := vec_alter (λ _, v) jlev (tInterp_ st);
     log := log st ++ [DebugFailed jlev SigB SigA] |}.

(** What an iteration can leave behind. *)
Inductive step_result (inp : Inputs F) (st : State F) (n : Z)
  : State F * Z → Prop :=
| step_skip : step_result inp st n (st, n)
| step_pass jlev v :
    0 ≤ jlev < Z.of_nat (length (tInterp_ st)) →
    step_result inp st n (after_pass st jlev v, n)
| step_fail jlev SigB SigA v :
    writable inp st jlev SigB SigA →
    step_result inp st n (after_failure st jlev SigB SigA v, Int32.incr n).

(** The failures a log reports, and the levels that took part in them. *)
Definition failures (l : list LogEntry) : list (Z * Z * Z) :=
  omap (λ e, match e with
             | DebugFailed jlev SigB SigA => Some (jlev, SigB, SigA)
             | _ => None
             end) l.

Definition participants (T : list (Z * Z * Z)) : list Z :=
  T ≫= λ t, [t.1.1; t.1.2; t.2].

Definition report (T : list (Z * Z * Z)) : list LogEntry :=
  (λ t, DebugFailed t.1.1 t.1.2 t.2) <$> T.

(** The state [st'] and count [n'] that a run of at most [k] iterations
    from [st] and [n] leaves when the failures [T] were found on the way. *)
Record summary (inp : Inputs F) (st : State F) (n : Z) (k : nat)
    (st' : State F) (n' : Z) (T : list (Z * Z * Z)) : Prop := {
  sum_log : log st' = log st ++ report T;
  sum_flags :
    tFlags st' = vec_alter_all set_interp (participants T) (tFlags st);
  sum_lev :
    LevErrors_ st' = vec_alter_all Int32.incr (participants T) (LevErrors_ st);
  sum_any :
    NumAnyErrors st' =
    Nat.iter (length T) (vec_alter Int32.incr 0) (NumAnyErrors st);
  sum_interp :
    NumInterpErrors st' =
    Nat.iter (length T) (vec_alter Int32.incr 0) (NumInterpErrors st);
  sum_obs : NumInterpErrObs st' = NumInterpErrObs st;
  sum_levels : levels st' = levels st;
  sum_count : n' = Nat.iter (length T) Int32.incr n;
  sum_bound : (length T ≤ k)%nat;
  sum_interp_len : length (tInterp_ st') = length (tInterp_ st);
  sum_range :
    Forall (λ i, 0 ≤ i < Z.of_nat (length (tFlags st)) ∧
                 0 ≤ i < Z.of_nat (length (LevErrors_ st))) (participants T);
}.

(** The same iteration in two halves, for the proofs: [judge] makes the
    reads and the tests of lines 70-106 and says what the iteration will
    do, [apply_outcome] makes the writes of lines 99-137. [body_judge]
    below shows that [body] is the one after the other. *)
Definition judge (inp : Inputs F) (cls : StdLevels F) (tObsFinal : list F)
    (flags : list Z) (jlevstd : Z) : option (Outcome F) :=
  jlev ← vec_get (StdLev_ cls) jlevstd;
  fl ← vec_get flags jlev;
  if negb (Z.land fl SurfaceLevelFlag =? 0) then Some Skipped else
  SigB ← vec_get (SigBelow_ cls) jlevstd;
  SigA ← vec_get (SigAbove_ cls) jlevstd;
  PStd ← vec_get (pressures inp) jlev;
  IPStd ← round_hPa PStd;
  BigGap ← select_BigGap (options_ inp) cls IPStd;
  if NumSig_ cls <? Z.max 3 (NumStd_ cls ÷ 2) then Some Skipped else
  if (SigB =? -1) || (SigA =? -1) then Some Skipped else
  pB ← vec_get (pressures inp) SigB;
  if fgtb (fsub pB PStd) BigGap then Some Skipped else
  pA ← vec_get (pressures inp) SigA;
  if fgtb (fsub PStd pA) BigGap then Some Skipped else
  lB ← vec_get (LogP_ cls) SigB;
  lA ← vec_get (LogP_ cls) SigA;
  if feqb lB lA then Some Skipped else
  lJ ← vec_get (LogP_ cls) jlev;
  tB ← vec_get tObsFinal SigB;
  tA ← vec_get tObsFinal SigA;
  let v := interpolate lJ lB lA tB tA in
  tJ ← vec_get tObsFinal jlev;
  let TolRelax := tol_relax (options_ inp) PStd in
  Some (Evaluated jlev SigB SigA v
          (fgtb (fabs (fsub tJ v))
                (fmul (ICheck_TInterpTol (options_ inp)) TolRelax))).

Definition apply_outcome (inp : Inputs F) (o : Outcome F) (sn : State F * Z)
  : option (State F * Z) :=
  let '(st, NumErrors) := sn in
  match o with
  | Skipped => Some sn
  | Evaluated jlev SigB SigA v failed =>
      ti ← vec_set (tInterp_ st) jlev v;
      if failed then
        na ← vec_upd Int32.incr (NumAnyErrors st) 0;
        ni ← vec_upd Int32.incr (NumInterpErrors st) 0;
        fl1 ← vec_upd set_interp (tFlags st) jlev;
        fl2 ← vec_upd set_interp fl1 SigB;
        fl3 ← vec_upd set_interp fl2 SigA;
        le1 ← vec_upd Int32.incr (LevErrors_ st) jlev;
        le2 ← vec_upd Int32.incr le1 SigB;
        le3 ← vec_upd Int32.incr le2 SigA;
        _ ← vec_get (tBkg inp) jlev;
        _ ← vec_get (tBkg inp) SigB;
        _ ← vec_get (tBkg inp) SigA;
        Some ({| tFlags := fl3; NumAnyErrors := na; NumInterpErrors := ni;
                 NumInterpErrObs := NumInterpErrObs st; levels := levels st;
                 LevErrors_ := le3; tInterp_ := ti;
                 log := log st ++ [DebugFailed jlev SigB SigA] |},
              Int32.incr NumErrors)
      else
        Some ({| tFlags := tFlags st; NumAnyErrors := NumAnyErrors st;
                 NumInterpErrors := NumInterpErrors st;
                 NumInterpErrObs := NumInterpErrObs st; levels := levels st;
                 LevErrors_ := LevErrors_ st; tInterp_ := ti; log := log st |},
              NumErrors)
  end.

(** Line 69: the loop, over the indices [js] in turn. *)
Fixpoint loop (inp : Inputs F) (cls : StdLevels F) (tObsFinal : list F)
    (js : list Z) (sn : State F * Z) : option (State F * Z) :=
  match js with
  | [] => Some sn
  | j :: js' => sn' ← body inp cls tObsFinal j sn; loop inp cls tObsFinal js' sn'
  end.

Definition sizes (inp : Inputs F) (st : State F) : list nat :=
  [length (pressures inp); length (tObs inp); length (tBkg inp);
   length (tFlags st); length (tObsCorrection inp)].

Definition add_log (e : LogEntry) (st : State F) : State F :=
  {| tFlags := tFlags st; NumAnyErrors := NumAnyErrors st;
     NumInterpErrors := NumInterpErrors st;
     NumInterpErrObs := NumInterpErrObs st; levels := levels st;
     LevErrors_ := LevErrors_ st; tInterp_ := tInterp_ st;
     log := log st ++ [e] |}.

(** Lines 59-65: correction, classification and the reset of the result
    vectors. *)
Definition prepare (inp : Inputs F) (st : State F) (tObsFinal : list F)
  : option (State F) :=
  let cls := calcStdLevels (numLevelsToCheck inp) (pressures inp) tObsFinal
                           (tFlags st) (levels st) in
  le ← vec_assign (numLevelsToCheck inp) (-1);
  ti ← vec_assign (numLevelsToCheck inp) missingValueFloat;
  Some {| tFlags := tFlags st; NumAnyErrors := NumAnyErrors st;
          NumInterpErrors := NumInterpErrors st;
          NumInterpErrObs := NumInterpErrObs st; levels := cls;
          LevErrors_ := le; tInterp_ := ti; log := log st |}.

(** Line 140. *)
Definition finish (sn : State F * Z) : option (State F) :=
  let '(st, NumErrors) := sn in
  if 0 <? NumErrors then
    no ← vec_upd Int32.incr (NumInterpErrObs st) 0;
    Some {| tFlags := tFlags st; NumAnyErrors := NumAnyErrors st;
            NumInterpErrors := NumInterpErrors st;
            NumInterpErrObs := no; levels := levels st;
            LevErrors_ := LevErrors_ st; tInterp_ := tInterp_ st;
            log := log st |}
  else Some st.

(** [runCheck], with the standard levels visited in the order [order]
    gives to the indices [0 .. NumStd_ - 1]. *)
Definition runCheck_in_order (order : list Z → list Z) (inp : Inputs F)
    (st0 : State F) : option (State F) :=
  let st := add_log (Debug " Interpolation check") st0 in
  if anyVectorEmpty (sizes inp st) then Some (add_log (Warning warn_empty) st)
  else if negb (allVectorsSameSize (sizes inp st))
  then Some (add_log (Warning warn_size) st)
  else
    let tObsFinal := correctVector (tObs inp) (tObsCorrection inp) in
    st1 ← prepare inp st tObsFinal;
    sn ← loop inp (levels st1) tObsFinal
              (order (seqZ 0 (NumStd_ (levels st1)))) (st1, 0);
    finish sn.

(** [ProfileCheckInterpolation::runCheck]. *)
Definition runCheck (inp : Inputs F) (st0 : State F) : option (State F) :=
  runCheck_in_order id inp st0.

(** Names for what lines 48-62 compute: the outcome of the two tests on
    the vectors, the corrected observations, and the classification that
    [calcStdLevels] gives for the profile. *)
Definition preflight_ok (inp : Inputs F) (st : State F) : Prop :=
  anyVectorEmpty (sizes inp st) = false ∧
  allVectorsSameSize (sizes inp st) = true.

Definition corrected (inp : Inputs F) : list F :=
  correctVector (tObs inp) (tObsCorrection inp).

Definition classify (inp : Inputs F) (st : State F) : StdLevels F :=
  calcStdLevels (numLevelsToCheck inp) (pressures inp) (corrected inp)
                (tFlags st) (levels st).

(** The classification keeps to the vectors of the profile: every index
    it names is one of the levels to check, or the missing bracket -1,
    the band table has a gap for every band, and the pressure of every
    standard level rounds to an [int]. *)
Definition classification_ok (inp : Inputs F) (cls : StdLevels F) : Prop :=
  numLevelsToCheck inp ≤ Z.of_nat (length (LogP_ cls)) ∧
  (length (StandardLevels_ cls) ≤ length (BigGaps_ cls))%nat ∧
  ∀ j, 0 ≤ j < NumStd_ cls →
    ∃ jlev SigB SigA PStd,
      vec_get (StdLev_ cls) j = Some jlev ∧
      0 ≤ jlev < numLevelsToCheck inp ∧
      vec_get (SigBelow_ cls) j = Some SigB ∧
      -1 ≤ SigB < numLevelsToCheck inp ∧
      vec_get (SigAbove_ cls) j = Some SigA ∧
      -1 ≤ SigA < numLevelsToCheck inp ∧
      vec_get (pressures inp) jlev = Some PStd ∧
      is_Some (round_hPa PStd).

(** A profile on which [runCheck] stays within its vectors. *)
Record well_formed (inp : Inputs F) (st : State F) : Prop := {
  wf_preflight : preflight_ok inp st;
  wf_levels : 0 ≤ numLevelsToCheck inp ≤ Z.of_nat (length (pressures inp));
  wf_corrected : length (corrected inp) = length (tObs inp);
  wf_any : NumAnyErrors st ≠ [];
  wf_interp : NumInterpErrors st ≠ [];
  wf_obs : NumInterpErrObs st ≠ [];
  wf_class : classification_ok inp (classify inp st);
  wf_NumStd : NumStd_ (classify inp st) ≤ Int32.max_int;
}.

(** The sizes that [runCheck] sets up before the loop and that the loop
    keeps. *)
Definition in_bounds (inp : Inputs F) (tObsFinal : list F) (st : State F)
  : Prop :=
  numLevelsToCheck inp ≤ Z.of_nat (length (pressures inp)) ∧
  length (tFlags st) = length (pressures inp) ∧
  length (tBkg inp) = length (pressures inp) ∧
  length tObsFinal = length (pressures inp) ∧
  Z.of_nat (length (LevErrors_ st)) = numLevelsToCheck inp ∧
  Z.of_nat (length (tInterp_ st)) = numLevelsToCheck inp ∧
  NumAnyErrors st ≠ [] ∧ NumInterpErrors st ≠ [].

(** The indices of an outcome are levels to check. *)
Definition outcome_in_range (inp : Inputs F) (o : Outcome F) : Prop :=
  match o with
  | Skipped => True
  | Evaluated jlev SigB SigA _ _ =>
      0 ≤ jlev < numLevelsToCheck inp ∧
      0 ≤ SigB < numLevelsToCheck inp ∧
      0 ≤ SigA < numLevelsToCheck inp
  end.

(** *** Order of the standard levels *)

(** The writes of an outcome as a total function, and the condition under
    which [apply_outcome] makes them. *)
Definition apply_total (o : Outcome F) (sn : State F * Z) : State F * Z :=
  match o with
  | Skipped => sn
  | Evaluated jlev SigB SigA v failed =>
      if failed then (after_failure sn.1 jlev SigB SigA v, Int32.incr sn.2)
      else (after_pass sn.1 jlev v, sn.2)
  end.

Definition applicable (inp : Inputs F) (o : Outcome F) (st : State F) : Prop :=
  match o with
  | Skipped => True
  | Evaluated jlev SigB SigA v failed =>
      0 ≤ jlev < Z.of_nat (length (tInterp_ st)) ∧
      (failed = true → writable inp st jlev SigB SigA)
  end.

(** The state without its log. *)
Definition forget_log (st : State F) : State F :=
  {| tFlags := tFlags st; NumAnyErrors := NumAnyErrors st;
     NumInterpErrors := NumInterpErrors st;
     NumInterpErrObs := NumInterpErrObs st; levels := levels st;
     LevErrors_ := LevErrors_ st; tInterp_ := tInterp_ st; log := [] |}.

(** Which levels have the surface bit clear: all that the guards use of
    the flags. *)
Definition surface_clear (flags : list Z) : list bool :=
  (λ fl, Z.land fl SurfaceLevelFlag =? 0) <$> flags.

(** The levels that take part in the evaluation of standard level [j],
    when it passes the guards. *)
Definition triple_of (inp : Inputs F) (cls : StdLevels F) (tObsFinal : list F)
    (flags : list Z) (j : Z) (t : list Z) : Prop :=
  ∃ jlev SigB SigA PStd lJ lB lA tJ tB tA,
    evaluated_level inp cls tObsFinal flags j jlev SigB SigA
                    PStd lJ lB lA tJ tB tA ∧
    t = [jlev; SigB; SigA].

Definition disjoint_triples (inp : Inputs F) (cls : StdLevels F)
    (tObsFinal : list F) (flags : list Z) : Prop :=
  ∀ j1 j2 t1 t2,
    0 ≤ j1 < NumStd_ cls → 0 ≤ j2 < NumStd_ cls →
    j1 ≠ j2 →
    triple_of inp cls tObsFinal flags j1 t1 →
    triple_of inp cls tObsFinal flags j2 t2 →
    ∀ i, i ∈ t1 → i ∉ t2.

(** The outcome of standard level [j] under the flags [flags], a
    [continue] standing in where the reads leave the vectors. *)
Definition outcome_of (inp : Inputs F) (cls : StdLevels F) (tObsFinal : list F)
    (flags : list Z) (j : Z) : Outcome F :=
  default Skipped (judge inp cls tObsFinal flags j).

Definition touched (o : Outcome F) : list Z :=
  match o with
  | Evaluated jlev SigB SigA _ true => [jlev; SigB; SigA]
  | _ => []
  end.

Definition has_failed (o : Outcome F) : bool :=
  match o with
  | Evaluated _ _ _ _ failed => failed
  | Skipped => false
  end.

Definition write_interp (ti : list F) (o : Outcome F) : list F :=
  match o with
  | Evaluated jlev _ _ v _ => vec_alter (λ _, v) jlev ti
  | Skipped => ti
  end.

(** Two states whose vectors have the same sizes. *)
Definition same_shape (st st' : State F) : Prop :=
  length (tFlags st') = length (tFlags st) ∧
  length (NumAnyErrors st') = length (NumAnyErrors st) ∧
  length (NumInterpErrors st') = length (NumInterpErrors st) ∧
  length (LevErrors_ st') = length (LevErrors_ st) ∧
  length (tInterp_ st') = length (tInterp_ st).

(** The failures among the outcomes [os]. *)
Definition fail_count (os : list (Outcome F)) : nat :=
  length (filter (λ o, has_failed o = true) os).

(** The writes of the outcomes [os], one after the other. *)
Definition effect (os : list (Outcome F)) (sn : State F * Z) : State F * Z :=
  foldl (λ s o, apply_total o s) sn os.

(** The level an outcome writes [tInterp_] at. *)
Definition centre (o : Outcome F) : option Z :=
  match o with
  | Evaluated jlev _ _ _ _ => Some jlev
  | Skipped => None
  end.

(** *** The reports and the results of a run *)

(** The state at the head of the loop (lines 27 and 59-65) of a run that
    passes the tests on the vectors. *)
Definition ready (inp : Inputs F) (st0 : State F) : State F :=
  {| tFlags := tFlags st0; NumAnyErrors := NumAnyErrors st0;
     NumInterpErrors := NumInterpErrors st0;
     NumInterpErrObs := NumInterpErrObs st0; levels := classify inp st0;
     LevErrors_ := replicate (Z.to_nat (numLevelsToCheck inp)) (-1);
     tInterp_ := replicate (Z.to_nat (numLevelsToCheck inp)) missingValueFloat;
     log := log st0 ++ [Debug " Interpolation check"] |}.

(** The failure that an outcome reports. *)
Definition reported (o : Outcome F) : option (Z * Z * Z) :=
  match o with
  | Evaluated jlev SigB SigA _ true => Some (jlev, SigB, SigA)
  | _ => None
  end.

(** Standard level [j] passes the guards under the flags [flags], with the
    level and the brackets [t], and is out of tolerance (lines 72-106). *)
Definition fails_as (inp : Inputs F) (cls : StdLevels F) (tObsFinal : list F)
    (flags : list Z) (j : Z) (t : Z * Z * Z) : Prop :=
  ∃ PStd lJ lB lA tJ tB tA,
    evaluated_level inp cls tObsFinal flags j t.1.1 t.1.2 t.2
                    PStd lJ lB lA tJ tB tA ∧
    out_of_tolerance (options_ inp) PStd tJ (interpolate lJ lB lA tB tA) = true.

(** Standard level [j] passes the guards under the flags [flags]; its
    level is [i] and the value of lines 96-99 is [v]. *)
Definition interpolated_at (inp : Inputs F) (cls : StdLevels F)
    (tObsFinal : list F) (flags : list Z) (j i : Z) (v : F) : Prop :=
  ∃ SigB SigA PStd lJ lB lA tJ tB tA,
    evaluated_level inp cls tObsFinal flags j i SigB SigA
                    PStd lJ lB lA tJ tB tA ∧
    v = interpolate lJ lB lA tB tA.

(** The state with other flags. *)
Definition with_flags (flags : list Z) (st : State F) : State F :=
  {| tFlags := flags; NumAnyErrors := NumAnyErrors st;
     NumInterpErrors := NumInterpErrors st;
     NumInterpErrObs := NumInterpErrObs st; levels := levels st;
     LevErrors_ := LevErrors_ st; tInterp_ := tInterp_ st; log := log st |}.

(** *** Handing the results to the validator *)

(** [ProfileCheckInterpolation::fillValidator] (lines 143-156): the seven
    member vectors go to the data handler, then the two counts as vectors
    of one entry per level to check. The two vectors are built (lines
    152-153) before either is set; with a negative count their constructor
    does not return, and nothing is set after the members. *)
Definition fillValidator (inp : Inputs F) (st : State F) : Published F :=
  let cls := levels st in
  let members :=
    [ (name_StdLev, IntVec (StdLev_ cls));
      (name_SigAbove, IntVec (SigAbove_ cls));
      (name_SigBelow, IntVec (SigBelow_ cls));
      (name_IndStd, IntVec (IndStd_ cls));
      (name_LevErrors, IntVec (LevErrors_ st));
      (name_tInterp, FloatVec (tInterp_ st));
      (name_LogP, FloatVec (LogP_ cls)) ] in
  match vec_assign (numLevelsToCheck inp) (NumStd_ cls),
        vec_assign (numLevelsToCheck inp) (NumSig_ cls) with
  | Some NumStd, Some NumSig =>
      {| sets := members ++ [ (name_NumStd, IntVec NumStd);
                              (name_NumSig, IntVec NumSig) ];
         returned := true |}
  | _, _ => {| sets := members; returned := false |}
  end.

(** The vector last passed to [set] under the name [name]. *)
Definition published (name : VarName) (p : Published F) : option (Value F) :=
  snd <$> last (filter (λ c, c.1 = name) (sets p)).

End Model.

Arguments body : simpl never.
Arguments judge : simpl never.
Arguments apply_outcome : simpl never.
Arguments select_BigGap : simpl never.

(** ** Sample profiles

    Single precision data to run the check on: a configuration, a stand-in
    for the classifier that hands out a prepared classification, and
    soundings of seven levels. *)

Module Sample.
Import Binary32.

(** A classifier that returns the classification [cls], and the sum of
    observation and correction as the corrected observation. *)
Definition externals (cls : StdLevels float) : Externals float := {|
  SurfaceLevelFlag := 2 ^ 18;
  InterpolationFlag := 2 ^ 21;
  missingValueFloat := SFopp (SFmax_float prec emax);
  correctVector := λ v1 v2, zip_with (SFadd prec emax) v1 v2;
  calcStdLevels := λ _ _ _ _ _, cls;
|}.

Definition opts : Options float := {|
  ICheck_BigGapInit := of_Z 1000;
  ICheck_TInterpTol := of_Z 1;
  ICheck_TolRelaxPThresh := of_Z 50000;
  ICheck_TolRelax := of_Z 2;
|}.

(** Band thresholds and gaps, in hPa. *)
Definition bands : list float := of_Z <$> [1000; 925; 850; 700; 500; 400; 300].
Definition gaps : list float := of_Z <$> [200; 200; 200; 200; 150; 150; 100].

(** Pressures in Pa, and their natural logarithms to six decimals. *)
Definition pressures7 : list float :=
  of_Z <$> [100000; 92500; 85000; 70000; 50000; 40000; 30000].
Definition logp7 : list float :=
  (λ z, SFdiv prec emax (of_Z z) (of_Z 1000000)) <$>
  [11512925; 11434964; 11350407; 11156251; 10819778; 10596635; 10308953].

Definition inputs (temps : list Z) : Inputs float := {|
  numLevelsToCheck := 7;
  pressures := pressures7;
  tObs := of_Z <$> temps;
  tBkg := of_Z <$> temps;
  tObsCorrection := replicate 7 (S754_zero false);
  options_ := opts;
|}.

(** Standard levels at the indices [std], each with the levels [below] and
    [above] as brackets, among [nsig] significant levels. *)
Definition classification (nsig : Z) (std below above : list Z)
  : StdLevels float := {|
  StandardLevels_ := bands;
  BigGaps_ := gaps;
  NumStd_ := Z.of_nat (length std);
  NumSig_ := nsig;
  StdLev_ := std ++ replicate (7 - length std) (-1);
  SigAbove_ := above ++ replicate (7 - length std) (-1);
  SigBelow_ := below ++ replicate (7 - length std) (-1);
  IndStd_ := replicate 7 (-1);
  LogP_ := logp7;
|}.

Definition no_levels : StdLevels float := {|
  StandardLevels_ := bands; BigGaps_ := gaps; NumStd_ := 0; NumSig_ := 0;
  StdLev_ := []; SigAbove_ := []; SigBelow_ := []; IndStd_ := []; LogP_ := [];
|}.

(** The state before the first check of a profile with the flags [flags]. *)
Definition initial (flags : list Z) : State float := {|
  tFlags := flags;
  NumAnyErrors := [0];
  NumInterpErrors := [0];
  NumInterpErrObs := [0];
  levels := no_levels;
  LevErrors_ := [];
  tInterp_ := [];
  log := [];
|}.

(** Temperatures that follow the logarithm of the pressure, and the same
    with ten degrees more at level 1, and at levels 1 and 3. *)
Definition smooth : list Z := [288; 283; 278; 266; 245; 231; 213].
Definition bump1 : list Z := [288; 293; 278; 266; 245; 231; 213].
Definition bump13 : list Z := [288; 293; 278; 276; 245; 231; 213].
Definition bump15 : list Z := [288; 293; 278; 266; 245; 241; 213].

(** Levels 1 and 5 between their neighbours: disjoint triples. *)
Definition apart : StdLevels float := classification 4 [1; 5] [0; 4] [2; 6].
(** Levels 1 and 3 between their neighbours: level 2 is a bracket of both. *)
Definition shared : StdLevels float := classification 3 [1; 3] [0; 2] [2; 4].

(** The natural logarithm of a pressure, from its value to six decimals
    in millionths. *)
Definition lp (micro : Z) : float := SFdiv prec emax (of_Z micro) (of_Z 1000000).

(** The state as lines 62-65 set it up for the loop. *)
Definition prepared (flags : list Z) (cls : StdLevels float) : State float := {|
  tFlags := flags;
  NumAnyErrors := [0];
  NumInterpErrors := [0];
  NumInterpErrObs := [0];
  levels := cls;
  LevErrors_ := replicate 7 (-1);
  tInterp_ := replicate 7 (SFopp (SFmax_float prec emax));
  log := [];
|}.

Definition clean : list Z := replicate 7 0.
(** Level 1 is the surface. *)
Definition surface1 : list Z := [0; 2 ^ 18; 0; 0; 0; 0; 0].

(** Level 1 without a lower bracket. *)
Definition unbracketed : StdLevels float := classification 4 [1] [-1] [2].

(** A profile without pressures. *)
Definition no_pressures : Inputs float := {|
  numLevelsToCheck := 7;
  pressures := [];
  tObs := of_Z <$> smooth;
  tBkg := of_Z <$> smooth;
  tObsCorrection := replicate 7 (S754_zero false);
  options_ := opts;
|}.

(** Flags with other bits than the surface level's at the levels 0, 2
    and 3. *)
Definition other_bits : list Z := [2 ^ 3; 0; 2 ^ 21; 2 ^ 5; 0; 0; 0].

(** Levels 1 and 3 between their neighbours, among two significant
    levels only. *)
Definition sparse : StdLevels float := classification 2 [1; 3] [0; 2] [2; 4].

(** A band table with gaps for its first three bands only. *)
Definition short_gaps : StdLevels float := {|
  StandardLevels_ := bands; BigGaps_ := take 3 gaps;
  NumStd_ := 0; NumSig_ := 0;
  StdLev_ := []; SigAbove_ := []; SigBelow_ := []; IndStd_ := []; LogP_ := [];
|}.

(** The state a check of another profile has left behind. *)
Definition stale : State float := {|
  tFlags := clean;
  NumAnyErrors := [3];
  NumInterpErrors := [1];
  NumInterpErrObs := [1];
  levels := shared;
  LevErrors_ := [0; -1; 0; 0];
  tInterp_ := of_Z <$> [270; 271; 272; 273];
  log := [];
|}.

End Sample.

(** ** Properties *)

Section Vec_facts.
Context {A : Type}.
Implicit Types (v : list A) (i k : Z) (f : A → A).

Lemma vec_get_Some v i x :
  vec_get v i = Some x ↔ 0 ≤ i ∧ v !! Z.to_nat i = Some x.
Proof.
  unfold vec_get. destruct (decide (0 ≤ i)); split.
  - by intros ->.
  - by intros [_ ?].
  - discriminate.
  - by intros [? _].
Qed.

Lemma vec_get_lt v i x : vec_get v i = Some x → 0 ≤ i < Z.of_nat (length v).
Proof.
  intros [? Hl]%vec_get_Some. apply lookup_lt_Some in Hl. lia.
Qed.

Lemma vec_get_is_Some v i : is_Some (vec_get v i) ↔ 0 ≤ i < Z.of_nat (length v).
Proof.
  split.
  - intros [x Hx]. by eapply vec_get_lt.
  - intros [? ?]. unfold vec_get. rewrite decide_True by done.
    apply lookup_lt_is_Some. lia.
Qed.

Lemma vec_get_None v i : vec_get v i = None ↔ ¬ (0 ≤ i < Z.of_nat (length v)).
Proof.
  rewrite <- vec_get_is_Some, eq_None_not_Some. done.
Qed.

Lemma vec_upd_Some f v i v' :
  vec_upd f v i = Some v' ↔
  0 ≤ i < Z.of_nat (length v) ∧ v' = alter f (Z.to_nat i) v.
Proof.
  unfold vec_upd. destruct (vec_get v i) as [x|] eqn:E.
  - apply vec_get_lt in E. split.
    + intros [= <-]. done.
    + intros [_ ->]. done.
  - split; [done|]. intros [Hi _].
    apply vec_get_is_Some in Hi. rewrite E in Hi. by destruct Hi.
Qed.

Lemma vec_get_alter f v i k :
  0 ≤ i →
  vec_get (alter f (Z.to_nat i) v) k =
  if decide (i = k) then f <$> vec_get v k else vec_get v k.
Proof.
  intros Hi. unfold vec_get. destruct (decide (0 ≤ k)) as [Hk|Hk].
  - case_decide as Hik.
    + subst k. apply list_lookup_alter_eq.
    + apply list_lookup_alter_ne. lia.
  - case_decide; [lia|done].
Qed.

Lemma vec_upd_alter f v i v' :
  vec_upd f v i = Some v' ↔
  0 ≤ i < Z.of_nat (length v) ∧ v' = vec_alter f i v.
Proof.
  rewrite vec_upd_Some. unfold vec_alter. split.
  - intros [Hi ->]. split; [done|]. by rewrite decide_True by lia.
  - intros [Hi ->]. split; [done|]. by rewrite decide_True by lia.
Qed.

Lemma vec_upd_ok f v i :
  0 ≤ i < Z.of_nat (length v) → vec_upd f v i = Some (vec_alter f i v).
Proof. intros. by apply vec_upd_alter. Qed.

Lemma length_vec_alter f i v : length (vec_alter f i v) = length v.
Proof. unfold vec_alter. case_decide; [apply length_alter|done]. Qed.

Lemma length_vec_alter_all f idx v : length (vec_alter_all f idx v) = length v.
Proof.
  unfold vec_alter_all. revert v.
  induction idx as [|i idx IH]; intros v; simpl; [done|].
  rewrite IH. apply length_vec_alter.
Qed.

Lemma vec_get_vec_alter f v i k :
  vec_get (vec_alter f i v) k =
  if decide (i = k) then f <$> vec_get v k else vec_get v k.
Proof.
  unfold vec_alter. destruct (decide (0 ≤ i)) as [Hi|Hi].
  - by apply vec_get_alter.
  - case_decide; [|done]. subst k. unfold vec_get. by rewrite decide_False.
Qed.

Lemma vec_get_vec_alter_all f idx v k :
  vec_get (vec_alter_all f idx v) k =
  Nat.iter (count_occ Z.eq_dec idx k) f <$> vec_get v k.
Proof.
  unfold vec_alter_all. revert v.
  induction idx as [|i idx IH]; intros v; simpl.
  - by destruct (vec_get v k).
  - rewrite IH, vec_get_vec_alter.
    destruct (Z.eq_dec i k) as [->|Hne].
    + rewrite decide_True by done. destruct (vec_get v k) as [x|]; [simpl|done].
      f_equal. symmetry. exact (Nat.iter_succ_r _ _ _).
    + by rewrite decide_False.
Qed.

Lemma vec_get_vec_alter_all_idem f idx v k :
  (∀ x, f (f x) = f x) →
  vec_get (vec_alter_all f idx v) k =
  (if decide (k ∈ idx) then f else id) <$> vec_get v k.
Proof.
  intros Hf. rewrite vec_get_vec_alter_all.
  destruct (vec_get v k) as [x|]; [simpl|done]. f_equal.
  destruct (decide (k ∈ idx)) as [Hin|Hin].
  - apply list_elem_of_In, (count_occ_In Z.eq_dec) in Hin.
    destruct (count_occ Z.eq_dec idx k) as [|c]; [lia|].
    clear Hin. induction c as [|c IH]; [done|].
    change (f (Nat.iter (S c) f x) = f x). by rewrite IH.
  - rewrite list_elem_of_In, (count_occ_not_In Z.eq_dec) in Hin.
    by rewrite Hin.
Qed.

Lemma vec_ext v1 v2 : (∀ k, vec_get v1 k = vec_get v2 k) → v1 = v2.
Proof.
  intros Hget. apply list_eq. intros i. specialize (Hget (Z.of_nat i)).
  unfold vec_get in Hget. rewrite !decide_True, Nat2Z.id in Hget by lia. done.
Qed.

Lemma vec_alter_all_perm f idx idx' v :
  idx ≡ₚ idx' → vec_alter_all f idx v = vec_alter_all f idx' v.
Proof.
  intros Hp. apply vec_ext. intros k. rewrite !vec_get_vec_alter_all.
  by rewrite (proj1 (Permutation_count_occ Z.eq_dec idx idx') Hp k).
Qed.

Lemma vec_alter_comm_ne f g i k v :
  i ≠ k → vec_alter f i (vec_alter g k v) = vec_alter g k (vec_alter f i v).
Proof.
  intros Hne. apply vec_ext. intros x. rewrite !vec_get_vec_alter.
  repeat case_decide; try done. congruence.
Qed.

Lemma vec_alter_all_idem f idx v :
  (∀ x, f (f x) = f x) →
  vec_alter_all f idx (vec_alter_all f idx v) = vec_alter_all f idx v.
Proof.
  intros Hf. apply vec_ext. intros k.
  rewrite !vec_get_vec_alter_all_idem by done.
  destruct (vec_get v k) as [x|]; [simpl|done].
  case_decide; simpl; [by rewrite Hf|done].
Qed.

Lemma vec_alter_all_app f idx1 idx2 v :
  vec_alter_all f (idx1 ++ idx2) v = vec_alter_all f idx2 (vec_alter_all f idx1 v).
Proof. unfold vec_alter_all. apply foldl_app. Qed.

End Vec_facts.

Section Band_scan.
Context {F : Type} {FO : FloatOps F} {EX : Externals F}.
Implicit Types (SL BG : list F) (IPStd : Z).

Lemma scan_bands_hit SL BG IPStd d n a i g :
  (a ≤ i < a + n)%nat →
  first_match SL IPStd i →
  (∀ k s', (k < a)%nat → SL !! k = Some s' → band_matches IPStd s' = false) →
  BG !! i = Some g →
  scan_bands SL BG IPStd d (seq a n) = Some (hPa_to_Pa g).
Proof.
  revert a. induction n as [|n IH]; intros a Hi Hfirst Hbefore Hg; [lia|].
  destruct Hfirst as [(s & Hs & Hm) Hlow]. simpl.
  destruct (decide (a = i)) as [->|Hne].
  - rewrite Hs. simpl. unfold band_matches in Hm. rewrite Hm, Hg. done.
  - assert (a < i)%nat as Hlt by lia.
    destruct (SL !! a) as [sa|] eqn:Ha.
    + simpl. pose proof (Hlow a sa Hlt Ha) as Hma. unfold band_matches in Hma.
      rewrite Hma. apply IH; [lia|split; eauto| |done].
      intros k s' Hk Hks. destruct (decide (k = a)) as [->|].
      * unfold band_matches. congruence.
      * apply (Hbefore k); [lia|done].
    + apply lookup_ge_None in Ha. apply lookup_lt_Some in Hs. lia.
Qed.

Lemma scan_bands_miss SL BG IPStd d n a :
  (a + n ≤ length SL)%nat →
  (∀ s, s ∈ SL → band_matches IPStd s = false) →
  scan_bands SL BG IPStd d (seq a n) = Some d.
Proof.
  revert a. induction n as [|n IH]; intros a Hlen Hall; [done|].
  simpl. destruct (lookup_lt_is_Some_2 SL a ltac:(lia)) as [s Hs].
  rewrite Hs. simpl. pose proof (Hall s (list_elem_of_lookup_2 _ _ _ Hs)) as Hm.
  unfold band_matches in Hm. rewrite Hm. apply IH; [lia|done].
Qed.

(** C1 (as the code has it): the band table is scanned from its first
    entry on, and the gap is that of the first band whose threshold is at
    most the level's pressure rounded to whole hPa, converted from hPa to
    Pa; with no such band the configured initial gap is used as it is. *)
Theorem select_BigGap_first_band_le (opts : Options F) (cls : StdLevels F) IPStd :
  (∀ i g,
     first_match (StandardLevels_ cls) IPStd i →
     BigGaps_ cls !! i = Some g →
     select_BigGap opts cls IPStd = Some (hPa_to_Pa g)) ∧
  ((∀ s, s ∈ StandardLevels_ cls → fleb s (f_of_int IPStd) = false) →
   select_BigGap opts cls IPStd = Some (ICheck_BigGapInit opts)).
Proof.
  split.
  - intros i g Hfirst Hg. unfold select_BigGap.
    destruct Hfirst as [(s & Hs & Hm) Hlow].
    apply scan_bands_hit with (i := i); [|split; eauto| |done].
    + apply lookup_lt_Some in Hs. lia.
    + intros k s' Hk. lia.
  - intros Hall. unfold select_BigGap. by apply scan_bands_miss.
Qed.

End Band_scan.

Section Decomposition.
Context {F : Type} {FO : FloatOps F} {EX : Externals F}.
Implicit Types (inp : Inputs F) (cls : StdLevels F) (st : State F).

Ltac case_head :=
  match goal with
  | |- mbind _ ?x = _ => destruct x eqn:?; simpl
  | |- (if ?b then _ else _) = _ => destruct b eqn:?; simpl
  | |- None = mbind _ (mbind _ ?x) => destruct x eqn:?; simpl
  end.

Ltac use_eqn :=
  match goal with
  | H : ?x = _ |- _ = mbind _ ?x => rewrite H; simpl
  end.

Lemma body_judge inp cls tObsFinal j st n :
  body inp cls tObsFinal j (st, n) =
  judge inp cls tObsFinal (tFlags st) j ≫= λ o, apply_outcome inp o (st, n).
Proof.
  unfold body, judge, apply_outcome.
  repeat (first [reflexivity | use_eqn | case_head]).
Qed.

End Decomposition.

Section Skips.
Context {F : Type} {FO : FloatOps F} {EX : Externals F}.
Implicit Types (inp : Inputs F) (cls : StdLevels F) (st : State F).

Ltac run_body :=
  repeat first
    [ reflexivity
    | match goal with
      | H : ?x = Some _ |- mbind _ ?x = _ => rewrite H; simpl
      | H : ?b = _ |- (if ?b then _ else _) = _ => rewrite H; simpl
      | |- (if ?b then _ else _) = _ => destruct b eqn:?; simpl
      end ].

Lemma body_surface inp cls tObsFinal j st n :
  surface_level cls (tFlags st) j →
  body inp cls tObsFinal j (st, n) = Some (st, n).
Proof.
  intros (jlev & fl & Hj & Hfl & Hbit). unfold body.
  rewrite Hj; simpl. rewrite Hfl; simpl.
  apply Z.eqb_neq in Hbit. rewrite Hbit. done.
Qed.

Lemma body_guard inp cls tObsFinal j st n :
  guard_skips inp cls (tFlags st) j →
  body inp cls tObsFinal j (st, n) = Some (st, n).
Proof.
  intros (jlev & fl & SigB & SigA & PStd & BigGap & Hreads & Hguard).
  destruct Hreads as (Hj & Hfl & HB & HA & HP & IPStd & HIP & HG).
  unfold body. rewrite Hj; simpl. rewrite Hfl; simpl.
  destruct (negb (Z.land fl SurfaceLevelFlag =? 0)); [done|].
  rewrite HB; simpl. rewrite HA; simpl. rewrite HP; simpl.
  rewrite HIP; simpl. rewrite HG; simpl.
  destruct Hguard as [Hfew|[Hmiss|[Hgap|[Hgap|Hsame]]]].
  - unfold too_few_sig in Hfew. apply Z.ltb_lt in Hfew. rewrite Hfew. done.
  - destruct (_ <? _); [done|].
    destruct Hmiss as [-> | ->]; simpl; [done|].
    rewrite orb_true_r. done.
  - destruct Hgap as (pB & HpB & Hgt). run_body.
  - destruct Hgap as (pB & pA & HpB & HpA & Hgt). run_body.
  - destruct Hsame as (pB & pA & lB & lA & HpB & HpA & HlB & HlA & Heq). run_body.
Qed.

End Skips.

Section Evaluated.
Context {F : Type} {FO : FloatOps F} {EX : Externals F}.
Implicit Types (inp : Inputs F) (cls : StdLevels F) (st : State F).

Lemma judge_evaluated inp cls tObsFinal flags j jlev SigB SigA PStd lJ lB lA tJ tB tA :
  evaluated_level inp cls tObsFinal flags j jlev SigB SigA PStd lJ lB lA tJ tB tA →
  judge inp cls tObsFinal flags j =
  Some (Evaluated jlev SigB SigA (interpolate lJ lB lA tB tA)
          (out_of_tolerance (options_ inp) PStd tJ (interpolate lJ lB lA tB tA))).
Proof.
  intros (fl & BigGap & pB & pA & Hreads & Hbit & Hfew & HBne & HAne &
          HpB & HgB & HpA & HgA & HlB & HlA & Hne & HlJ & HtB & HtA & HtJ).
  destruct Hreads as (Hj & Hfl & HB & HA & HP & IPStd & HIP & HG).
  unfold judge. rewrite Hj; simpl. rewrite Hfl; simpl.
  rewrite Hbit; simpl. rewrite HB; simpl. rewrite HA; simpl.
  rewrite HP; simpl. rewrite HIP; simpl. rewrite HG; simpl.
  unfold too_few_sig in Hfew. apply Z.ltb_nlt in Hfew. rewrite Hfew.
  apply Z.eqb_neq in HBne, HAne. rewrite HBne, HAne; simpl.
  rewrite HpB; simpl. rewrite HgB. rewrite HpA; simpl. rewrite HgA.
  rewrite HlB; simpl. rewrite HlA; simpl. rewrite Hne.
  rewrite HlJ; simpl. rewrite HtB; simpl. rewrite HtA; simpl.
  rewrite HtJ; simpl. done.
Qed.

Lemma apply_outcome_writable inp st n jlev SigB SigA v failed :
  writable inp st jlev SigB SigA →
  apply_outcome inp (Evaluated jlev SigB SigA v failed) (st, n) =
  Some (if failed then (after_failure st jlev SigB SigA v, Int32.incr n)
        else (after_pass st jlev v, n)).
Proof.
  intros (Hti & Hna & Hni & Hidx).
  destruct (Hidx jlev) as (HfJ & HeJ & HbJ); [repeat constructor|].
  destruct (Hidx SigB) as (HfB & HeB & HbB); [repeat constructor|].
  destruct (Hidx SigA) as (HfA & HeA & HbA); [repeat constructor|].
  unfold apply_outcome, vec_set.
  rewrite (vec_upd_ok _ _ _ Hti); simpl.
  destruct failed; [|done].
  repeat (rewrite vec_upd_ok by (rewrite ?length_vec_alter; lia); simpl).
  destruct (proj2 (vec_get_is_Some (tBkg inp) jlev) HbJ) as [? ->].
  destruct (proj2 (vec_get_is_Some (tBkg inp) SigB) HbB) as [? ->].
  destruct (proj2 (vec_get_is_Some (tBkg inp) SigA) HbA) as [? ->].
  done.
Qed.

Lemma body_evaluated inp cls tObsFinal st n j jlev SigB SigA PStd lJ lB lA tJ tB tA :
  evaluated_level inp cls tObsFinal (tFlags st) j jlev SigB SigA PStd lJ lB lA tJ tB tA →
  writable inp st jlev SigB SigA →
  let v := interpolate lJ lB lA tB tA in
  body inp cls tObsFinal j (st, n) =
  Some (if out_of_tolerance (options_ inp) PStd tJ v
        then (after_failure st jlev SigB SigA v, Int32.incr n)
        else (after_pass st jlev v, n)).
Proof.
  intros Hev Hw v. rewrite body_judge, (judge_evaluated _ _ _ _ _ _ _ _ _ _ _ _ _ _ _ Hev).
  simpl. by apply apply_outcome_writable.
Qed.

End Evaluated.

Section Steps.
Context {F : Type} {FO : FloatOps F} {EX : Externals F}.
Implicit Types (inp : Inputs F) (cls : StdLevels F) (st : State F).

Lemma apply_outcome_spec inp o st n sn' :
  apply_outcome inp o (st, n) = Some sn' ↔
  applicable inp o st ∧ sn' = apply_total o (st, n).
Proof.
  split.
  - destruct o as [|jlev SigB SigA v failed]; unfold apply_outcome; simpl.
    { intros [= <-]. done. }
    unfold vec_set.
    destruct (vec_upd _ (tInterp_ st) jlev) as [ti|] eqn:Hti; [simpl|done].
    apply vec_upd_alter in Hti as [Hti ->].
    destruct failed; [|intros [= <-]; split; [split; [done|discriminate]|done]].
    destruct (vec_upd _ (NumAnyErrors st) 0) as [na|] eqn:Hna; [simpl|done].
    destruct (vec_upd _ (NumInterpErrors st) 0) as [ni|] eqn:Hni; [simpl|done].
    destruct (vec_upd _ (tFlags st) jlev) as [fl1|] eqn:Hfl1; [simpl|done].
    destruct (vec_upd _ fl1 SigB) as [fl2|] eqn:Hfl2; [simpl|done].
    destruct (vec_upd _ fl2 SigA) as [fl3|] eqn:Hfl3; [simpl|done].
    destruct (vec_upd _ (LevErrors_ st) jlev) as [le1|] eqn:Hle1; [simpl|done].
    destruct (vec_upd _ le1 SigB) as [le2|] eqn:Hle2; [simpl|done].
    destruct (vec_upd _ le2 SigA) as [le3|] eqn:Hle3; [simpl|done].
    destruct (vec_get (tBkg inp) jlev) as [bJ|] eqn:HbJ; [simpl|done].
    destruct (vec_get (tBkg inp) SigB) as [bB|] eqn:HbB; [simpl|done].
    destruct (vec_get (tBkg inp) SigA) as [bA|] eqn:HbA; [simpl|done].
    intros [= <-].
    apply vec_upd_alter in Hna as [Hna ->], Hni as [Hni ->].
    apply vec_upd_alter in Hfl1 as [Hfl1 ->].
    apply vec_upd_alter in Hfl2 as [Hfl2 ->].
    apply vec_upd_alter in Hfl3 as [Hfl3 ->].
    apply vec_upd_alter in Hle1 as [Hle1 ->].
    apply vec_upd_alter in Hle2 as [Hle2 ->].
    apply vec_upd_alter in Hle3 as [Hle3 ->].
    rewrite ?length_vec_alter in *.
    apply vec_get_lt in HbJ, HbB, HbA.
    split; [|done]. split; [done|]. intros _.
    unfold writable. split; [lia|]. split; [lia|]. split; [lia|].
    intros i Hi. revert Hi. rewrite !elem_of_cons, elem_of_nil.
    intros [->|[->|[->|[]]]]; lia.
  - intros [Ha ->]. destruct o as [|jlev SigB SigA v failed]; [done|].
    destruct Ha as [Hti Hw]. destruct failed.
    + rewrite apply_outcome_writable by auto. done.
    + unfold apply_outcome, vec_set. rewrite vec_upd_ok by done. done.
Qed.

Lemma apply_outcome_result inp o st n sn' :
  apply_outcome inp o (st, n) = Some sn' → step_result inp st n sn'.
Proof.
  intros [Ha ->]%apply_outcome_spec.
  destruct o as [|jlev SigB SigA v failed]; simpl; [constructor|].
  destruct Ha as [Hti Hw]. destruct failed.
  - apply step_fail. auto.
  - by apply step_pass.
Qed.

Lemma body_result inp cls tObsFinal j st n sn' :
  body inp cls tObsFinal j (st, n) = Some sn' → step_result inp st n sn'.
Proof.
  rewrite body_judge. destruct (judge _ _ _ _ _) as [o|]; [simpl|done].
  apply apply_outcome_result.
Qed.

End Steps.

Section Loop.
Context {F : Type} {FO : FloatOps F} {EX : Externals F}.
Implicit Types (inp : Inputs F) (cls : StdLevels F) (st : State F).

Lemma loop_summary inp cls tObsFinal js st n st' n' :
  loop inp cls tObsFinal js (st, n) = Some (st', n') →
  ∃ T, summary inp st n (length js) st' n' T.
Proof.
  revert st n. induction js as [|j js IH]; intros st n; simpl.
  - intros [= <- <-]. exists []. split; simpl; rewrite ?app_nil_r; auto.
  - destruct (body inp cls tObsFinal j (st, n)) as [[st1 n1]|] eqn:Hb; [simpl|done].
    intros Hl. apply IH in Hl as [T HT]. destruct HT.
    apply body_result in Hb.
    inversion Hb as [|jlev v Hti|jlev SigB SigA v Hw]; subst; clear Hb.
    + exists T. split; auto.
    + exists T. simpl in *. rewrite length_vec_alter in *. split; auto.
    + exists ((jlev, SigB, SigA) :: T).
      destruct Hw as (Hti & Hna & Hni & Hidx).
      simpl in *. rewrite !length_vec_alter in sum_range0.
      rewrite length_vec_alter in sum_interp_len0.
      split; simpl; auto; try lia.
      * rewrite sum_log0. rewrite <- app_assoc. done.
      * rewrite sum_any0. symmetry. exact (Nat.iter_succ_r _ _ _).
      * rewrite sum_interp0. symmetry. exact (Nat.iter_succ_r _ _ _).
      * symmetry. exact (Nat.iter_succ_r _ _ _).
      * repeat (apply Forall_cons; split;
                [split; apply Hidx; repeat constructor|]).
        done.
Qed.

End Loop.

Section Run.
Context {F : Type} {FO : FloatOps F} {EX : Externals F}.
Implicit Types (inp : Inputs F) (cls : StdLevels F) (st : State F).

Lemma iter_incr (k : nat) :
  Z.of_nat k ≤ Int32.max_int → Nat.iter k Int32.incr 0 = Z.of_nat k.
Proof.
  induction k as [|k IH]; intros Hk; [done|].
  simpl. rewrite IH by lia. unfold Int32.incr, Int32.wrap, Int32.max_int in *.
  rewrite Z.mod_small by lia. lia.
Qed.

Lemma incr_small (x : Z) :
  Int32.min_int ≤ x < Int32.max_int → Int32.incr x = x + 1.
Proof.
  unfold Int32.incr, Int32.wrap, Int32.min_int, Int32.max_int. intros Hx.
  rewrite Z.mod_small by lia. lia.
Qed.

Lemma preflight_fails inp st :
  ¬ preflight_ok inp st →
  ∀ order, runCheck_in_order order inp st =
    Some (add_log (Warning (if anyVectorEmpty (sizes inp st)
                            then warn_empty else warn_size))
                  (add_log (Debug " Interpolation check") st)).
Proof.
  intros Hpre order. unfold runCheck_in_order.
  change (sizes inp (add_log _ st)) with (sizes inp st).
  destruct (anyVectorEmpty _) eqn:He; [done|].
  destruct (allVectorsSameSize _) eqn:Hs; [|done].
  destruct Hpre. by split.
Qed.

Lemma preflight_passes inp st order :
  preflight_ok inp st →
  runCheck_in_order order inp st =
  prepare inp (add_log (Debug " Interpolation check") st) (corrected inp) ≫= λ st1,
  loop inp (classify inp st) (corrected inp)
       (order (seqZ 0 (NumStd_ (classify inp st)))) (st1, 0) ≫= finish.
Proof.
  intros [He Hs]. unfold runCheck_in_order.
  change (sizes inp (add_log _ st)) with (sizes inp st).
  rewrite He, Hs. simpl. unfold prepare.
  destruct (vec_assign _ (-1)); [simpl|done].
  destruct (vec_assign _ missingValueFloat); done.
Qed.

Lemma prepare_Some inp st tObsFinal :
  0 ≤ numLevelsToCheck inp →
  prepare inp st tObsFinal =
  Some {| tFlags := tFlags st; NumAnyErrors := NumAnyErrors st;
          NumInterpErrors := NumInterpErrors st;
          NumInterpErrObs := NumInterpErrObs st;
          levels := calcStdLevels (numLevelsToCheck inp) (pressures inp)
                                  tObsFinal (tFlags st) (levels st);
          LevErrors_ := replicate (Z.to_nat (numLevelsToCheck inp)) (-1);
          tInterp_ := replicate (Z.to_nat (numLevelsToCheck inp))
                                missingValueFloat;
          log := log st |}.
Proof.
  intros Hn. unfold prepare, vec_assign. by rewrite !decide_True by done.
Qed.

Lemma prepare_None inp st tObsFinal :
  numLevelsToCheck inp < 0 → prepare inp st tObsFinal = None.
Proof.
  intros Hn. unfold prepare, vec_assign. by rewrite !decide_False by lia.
Qed.

(** The stages of a run that passes the tests on the vectors. *)
Lemma runCheck_stages inp st0 st' order :
  preflight_ok inp st0 →
  (∀ l, length (order l) = length l) →
  runCheck_in_order order inp st0 = Some st' →
  ∃ st1 st2 n' T,
    0 ≤ numLevelsToCheck inp ∧
    prepare inp (add_log (Debug " Interpolation check") st0) (corrected inp)
      = Some st1 ∧
    loop inp (classify inp st0) (corrected inp)
         (order (seqZ 0 (NumStd_ (classify inp st0)))) (st1, 0)
      = Some (st2, n') ∧
    summary inp st1 0 (Z.to_nat (NumStd_ (classify inp st0))) st2 n' T ∧
    finish (st2, n') = Some st'.
Proof.
  intros Hpre Hord. rewrite preflight_passes by done.
  destruct (decide (0 ≤ numLevelsToCheck inp)) as [Hn|Hn];
    [|rewrite prepare_None by lia; done].
  destruct (prepare _ _ _) as [st1|] eqn:Hp; [simpl|done].
  destruct (loop _ _ _ _ _) as [[st2 n']|] eqn:Hl; [simpl|done].
  intros Hf. destruct (loop_summary _ _ _ _ _ _ _ _ Hl) as [T HT].
  rewrite Hord, length_seqZ in HT.
  exists st1, st2, n', T. done.
Qed.

End Run.

Section Defined.
Context {F : Type} {FO : FloatOps F} {EX : Externals F}.
Implicit Types (inp : Inputs F) (cls : StdLevels F) (st : State F).

Lemma scan_bands_defined (SL BG : list F) IPStd d n a :
  (length SL ≤ length BG)%nat → (a + n ≤ length SL)%nat →
  is_Some (scan_bands SL BG IPStd d (seq a n)).
Proof.
  intros Hlen. revert a. induction n as [|n IH]; intros a Ha; simpl; [done|].
  destruct (lookup_lt_is_Some_2 SL a ltac:(lia)) as [s ->]. simpl.
  destruct (fleb _ _).
  - destruct (lookup_lt_is_Some_2 BG a ltac:(lia)) as [g ->]. done.
  - apply IH. lia.
Qed.

Lemma select_BigGap_defined (opts : Options F) cls IPStd :
  (length (StandardLevels_ cls) ≤ length (BigGaps_ cls))%nat →
  is_Some (select_BigGap opts cls IPStd).
Proof. intros. unfold select_BigGap. by apply scan_bands_defined. Qed.

Ltac read v i :=
  let x := fresh "x" in
  destruct (proj2 (vec_get_is_Some v i) ltac:(lia)) as [x ->]; simpl.

Lemma judge_defined inp cls tObsFinal flags j :
  classification_ok inp cls →
  numLevelsToCheck inp ≤ Z.of_nat (length (pressures inp)) →
  length flags = length (pressures inp) →
  length tObsFinal = length (pressures inp) →
  0 ≤ j < NumStd_ cls →
  ∃ o, judge inp cls tObsFinal flags j = Some o ∧ outcome_in_range inp o.
Proof.
  intros (HlogP & Hbands & Hidx) Hn Hfl Htof Hj.
  destruct (Hidx j Hj) as (jlev & SigB & SigA & PStd & HJ & HJr & HB & HBr &
                           HA & HAr & HP & [IPStd HIP]).
  destruct (select_BigGap_defined (options_ inp) cls IPStd Hbands) as [BigGap HG].
  unfold judge. rewrite HJ; simpl. read flags jlev.
  destruct (negb _); [by exists Skipped|].
  rewrite HB; simpl. rewrite HA; simpl. rewrite HP; simpl.
  rewrite HIP; simpl. rewrite HG; simpl.
  destruct (_ <? _); [by exists Skipped|].
  destruct (_ || _) eqn:Hor; [by exists Skipped|].
  apply orb_false_elim in Hor as [HBne%Z.eqb_neq HAne%Z.eqb_neq].
  read (pressures inp) SigB. destruct (fgtb _ _); [by exists Skipped|].
  read (pressures inp) SigA. destruct (fgtb _ _); [by exists Skipped|].
  read (LogP_ cls) SigB. read (LogP_ cls) SigA.
  destruct (feqb _ _); [by exists Skipped|].
  read (LogP_ cls) jlev. read tObsFinal SigB. read tObsFinal SigA.
  read tObsFinal jlev.
  eexists. split; [done|]. simpl. lia.
Qed.

Lemma in_bounds_writable inp tObsFinal st jlev SigB SigA v failed :
  in_bounds inp tObsFinal st →
  outcome_in_range inp (Evaluated jlev SigB SigA v failed) →
  writable inp st jlev SigB SigA.
Proof.
  intros (Hn & Hfl & Hbk & Htof & Hle & Hti & Hna & Hni) (HJ & HB & HA).
  unfold writable. split; [lia|]. split; [|split].
  - destruct (NumAnyErrors st); [done|simpl; lia].
  - destruct (NumInterpErrors st); [done|simpl; lia].
  - intros i Hi. revert Hi. rewrite !elem_of_cons, elem_of_nil.
    intros [->|[->|[->|[]]]]; lia.
Qed.

Lemma step_result_in_bounds inp tObsFinal st n sn' :
  step_result inp st n sn' → in_bounds inp tObsFinal st →
  in_bounds inp tObsFinal sn'.1.
Proof.
  intros Hs (Hn & Hfl & Hbk & Htof & Hle & Hti & Hna & Hni).
  assert (∀ (l : list Z), l ≠ [] → vec_alter Int32.incr 0 l ≠ []) as Hne.
  { intros [|x l]; done. }
  destruct Hs; simpl; unfold in_bounds; simpl;
    rewrite ?length_vec_alter; auto 10.
Qed.

Lemma body_defined inp cls tObsFinal st n j :
  classification_ok inp cls → in_bounds inp tObsFinal st →
  0 ≤ j < NumStd_ cls →
  is_Some (body inp cls tObsFinal j (st, n)).
Proof.
  intros Hcls Hb Hj. rewrite body_judge.
  destruct Hb as (Hn & Hfl & Hbk & Htof & Hrest).
  destruct (judge_defined inp cls tObsFinal (tFlags st) j Hcls Hn Hfl Htof Hj)
    as (o & -> & Hr).
  destruct o as [|jlev SigB SigA v failed]; [done|].
  change (is_Some (apply_outcome inp (Evaluated jlev SigB SigA v failed) (st, n))).
  rewrite apply_outcome_writable; [done|].
  eapply in_bounds_writable; [|done]. unfold in_bounds. eauto.
Qed.

Lemma loop_defined inp cls tObsFinal js st n :
  classification_ok inp cls → in_bounds inp tObsFinal st →
  (∀ j, j ∈ js → 0 ≤ j < NumStd_ cls) →
  is_Some (loop inp cls tObsFinal js (st, n)).
Proof.
  intros Hcls. revert st n.
  induction js as [|j js IH]; intros st n Hb Hjs; simpl; [done|].
  destruct (body_defined inp cls tObsFinal st n j Hcls Hb) as [[st1 n1] Hbody].
  { apply Hjs. left. }
  rewrite Hbody. simpl. apply IH.
  - apply body_result in Hbody.
    apply (step_result_in_bounds _ _ _ _ _ Hbody Hb).
  - intros k Hk. apply Hjs. by right.
Qed.

End Defined.

Section Total.
Context {F : Type} {FO : FloatOps F} {EX : Externals F}.
Implicit Types (inp : Inputs F) (cls : StdLevels F) (st : State F).

Lemma preflight_sizes inp st :
  preflight_ok inp st →
  length (pressures inp) ≠ 0%nat ∧
  length (tObs inp) = length (pressures inp) ∧
  length (tBkg inp) = length (pressures inp) ∧
  length (tFlags st) = length (pressures inp) ∧
  length (tObsCorrection inp) = length (pressures inp).
Proof.
  intros [He Hs]. unfold sizes, anyVectorEmpty, allVectorsSameSize in *.
  simpl in *.
  repeat (apply orb_false_elim in He as [? He]).
  repeat (apply andb_prop in Hs as [? Hs]).
  repeat match goal with
         | H : (_ =? _)%nat = true |- _ => apply Nat.eqb_eq in H
         | H : (_ =? _)%nat = false |- _ => apply Nat.eqb_neq in H
         end.
  repeat split; congruence.
Qed.

Lemma prepared_in_bounds inp st0 st1 :
  well_formed inp st0 →
  prepare inp (add_log (Debug " Interpolation check") st0) (corrected inp)
    = Some st1 →
  in_bounds inp (corrected inp) st1.
Proof.
  intros Hwf. destruct Hwf.
  destruct (preflight_sizes inp st0 wf_preflight0) as (_ & Hto & Hbk & Hfl & _).
  rewrite prepare_Some by lia. intros [= <-].
  unfold in_bounds. simpl. rewrite !length_replicate.
  repeat split; try done; try lia; congruence.
Qed.

Lemma finish_defined st n :
  NumInterpErrObs st ≠ [] → is_Some (finish (st, n)).
Proof.
  intros Hne. unfold finish. destruct (0 <? n); [|done].
  rewrite vec_upd_ok; [done|]. destruct (NumInterpErrObs st); [done|simpl; lia].
Qed.

(** On a well-formed profile the check runs to its end, in whatever order
    the standard levels are visited. *)
Lemma runCheck_defined inp st0 order :
  well_formed inp st0 →
  (∀ l j, j ∈ order l → j ∈ l) →
  is_Some (runCheck_in_order order inp st0).
Proof.
  intros Hwf Hord. pose proof Hwf as Hwf'. destruct Hwf'.
  rewrite preflight_passes by done.
  destruct (prepare _ _ _) as [st1|] eqn:Hp;
    [|rewrite prepare_Some in Hp by lia; done].
  pose proof (prepared_in_bounds inp st0 st1 Hwf Hp) as Hb.
  simpl.
  destruct (loop_defined inp (classify inp st0) (corrected inp)
              (order (seqZ 0 (NumStd_ (classify inp st0)))) st1 0 wf_class0 Hb)
    as [[st2 n2] Hl].
  { intros j Hj%Hord. apply list_elem_of_lookup in Hj as [i Hi].
    apply lookup_seqZ in Hi. lia. }
  rewrite Hl. simpl. apply finish_defined.
  apply loop_summary in Hl as [T HT]. destruct HT.
  rewrite sum_obs0. rewrite prepare_Some in Hp by lia.
  injection Hp as <-. done.
Qed.

End Total.

(** ** The claims about one standard level *)

Section Level_claims.
Context {F : Type} {FO : FloatOps F} {EX : Externals F}.
Implicit Types (inp : Inputs F) (cls : StdLevels F) (st : State F).

(** C2: for a standard level that passes all guards, the value written to
    [tInterp_] at that level is
    [tObsFinal[SigB] + (tObsFinal[SigA] - tObsFinal[SigB]) *
     (LogP[jlev] - LogP[SigB]) / (LogP[SigA] - LogP[SigB])],
    whatever the state and the error count were before. *)
Theorem tInterp_log_pressure_interpolation
    inp cls tObsFinal st n j jlev SigB SigA PStd lJ lB lA tJ tB tA :
  evaluated_level inp cls tObsFinal (tFlags st) j jlev SigB SigA
                  PStd lJ lB lA tJ tB tA →
  writable inp st jlev SigB SigA →
  ∃ st' n',
    body inp cls tObsFinal j (st, n) = Some (st', n') ∧
    vec_get (tInterp_ st') jlev =
    Some (fadd tB (fmul (fsub tA tB) (fdiv (fsub lJ lB) (fsub lA lB)))).
Proof.
  intros Hev Hw. pose proof (body_evaluated _ _ _ _ n _ _ _ _ _ _ _ _ _ _ _ Hev Hw) as Hb.
  simpl in Hb. destruct Hw as (Hti & _).
  assert (vec_get (vec_alter (λ _, interpolate lJ lB lA tB tA) jlev (tInterp_ st)) jlev
          = Some (interpolate lJ lB lA tB tA)) as Hget.
  { rewrite vec_get_vec_alter, decide_True by done.
    destruct (proj2 (vec_get_is_Some (tInterp_ st) jlev) Hti) as [x ->]. done. }
  destruct (out_of_tolerance _ _ _ _); eexists _, _; (split; [exact Hb|exact Hget]).
Qed.

(** C3: an evaluated standard level fails the tolerance test exactly when
    [|tObsFinal[jlev] - tInterp[jlev]| > TInterpTol * TolRelax], where
    [TolRelax] is the configured factor when the pressure of the level is
    below the configured threshold and 1.0 otherwise. A failure is
    reported and counted; without one the flags, counters and error
    tallies stay as they were. *)
Theorem tolerance_test_fails_iff
    inp cls tObsFinal st n j jlev SigB SigA PStd lJ lB lA tJ tB tA :
  evaluated_level inp cls tObsFinal (tFlags st) j jlev SigB SigA
                  PStd lJ lB lA tJ tB tA →
  writable inp st jlev SigB SigA →
  let TolRelax :=
    if fltb PStd (ICheck_TolRelaxPThresh (options_ inp))
    then ICheck_TolRelax (options_ inp) else f_one in
  ∃ st' n' ti,
    body inp cls tObsFinal j (st, n) = Some (st', n') ∧
    vec_get (tInterp_ st') jlev = Some ti ∧
    if fgtb (fabs (fsub tJ ti)) (fmul (ICheck_TInterpTol (options_ inp)) TolRelax)
    then log st' = log st ++ [DebugFailed jlev SigB SigA] ∧
         n' = Int32.incr n
    else log st' = log st ∧ n' = n ∧ tFlags st' = tFlags st ∧
         NumAnyErrors st' = NumAnyErrors st ∧
         NumInterpErrors st' = NumInterpErrors st ∧
         LevErrors_ st' = LevErrors_ st.
Proof.
  intros Hev Hw TolRelax.
  pose proof (body_evaluated _ _ _ _ n _ _ _ _ _ _ _ _ _ _ _ Hev Hw) as Hb.
  simpl in Hb. destruct Hw as (Hti & _).
  set (v := interpolate lJ lB lA tB tA) in *.
  assert (vec_get (vec_alter (λ _, v) jlev (tInterp_ st)) jlev = Some v) as Hget.
  { rewrite vec_get_vec_alter, decide_True by done.
    destruct (proj2 (vec_get_is_Some (tInterp_ st) jlev) Hti) as [x ->]. done. }
  unfold out_of_tolerance, tol_relax in Hb. fold TolRelax in Hb.
  destruct (fgtb (fabs (fsub tJ v)) _) eqn:Hgt.
  - exists (after_failure st jlev SigB SigA v), (Int32.incr n), v.
    rewrite Hgt. done.
  - exists (after_pass st jlev v), n, v. rewrite Hgt. done.
Qed.

(** C6: a standard level whose flags have the surface level bit is not
    evaluated, whatever its observation: the iteration leaves the state
    and the error count as they are, and no other iteration takes the bit
    away. *)
Theorem surface_level_not_evaluated inp cls tObsFinal st n j :
  surface_level cls (tFlags st) j →
  body inp cls tObsFinal j (st, n) = Some (st, n) ∧
  ∀ j' m st' m',
    body inp cls tObsFinal j' (st, m) = Some (st', m') →
    surface_level cls (tFlags st') j.
Proof.
  intros Hs. split; [by apply body_surface|].
  intros j' m st' m' Hb. apply body_result in Hb.
  destruct Hs as (jlev & fl & Hj & Hfl & Hbit).
  inversion Hb as [|k v Hk|k SigB SigA v Hw]; subst; clear Hb.
  - by exists jlev, fl.
  - by exists jlev, fl.
  - simpl. change (vec_alter set_interp SigA _)
      with (vec_alter_all set_interp [k; SigB; SigA] (tFlags st)).
    exists jlev, (Nat.iter (count_occ Z.eq_dec [k; SigB; SigA] jlev) set_interp fl).
    split; [done|]. split; [by rewrite vec_get_vec_alter_all, Hfl|].
    assert (∀ x, Z.land x SurfaceLevelFlag ≠ 0 →
                 Z.land (set_interp x) SurfaceLevelFlag ≠ 0) as Hkeep.
    { intros x Hx. unfold set_interp. rewrite Z.land_lor_distr_l.
      intros [? _]%Z.lor_eq_0_iff. done. }
    induction (count_occ _ _ _) as [|c IH]; simpl; auto.
Qed.

End Level_claims.

(** ** The claims about a run of the check *)

Section Run_facts.
Context {F : Type} {FO : FloatOps F} {EX : Externals F}.
Implicit Types (inp : Inputs F) (cls : StdLevels F) (st : State F).

Lemma failures_app (l1 l2 : list LogEntry) :
  failures (l1 ++ l2) = failures l1 ++ failures l2.
Proof. unfold failures. apply omap_app. Qed.

Lemma failures_report T : failures (report T) = T.
Proof.
  induction T as [|[[a b] c] T IH]; [done|].
  change (failures (report ((a, b, c) :: T)))
    with ((a, b, c) :: failures (report T)).
  by rewrite IH.
Qed.

Lemma loop_all_skipped inp cls tObsFinal js st n :
  (∀ j, j ∈ js →
        surface_level cls (tFlags st) j ∨ guard_skips inp cls (tFlags st) j) →
  loop inp cls tObsFinal js (st, n) = Some (st, n).
Proof.
  induction js as [|j js IH]; intros Hall; simpl; [done|].
  assert (body inp cls tObsFinal j (st, n) = Some (st, n)) as ->.
  { destruct (Hall j) as [Hs|Hg]; [left| |].
    - by apply body_surface.
    - by apply body_guard. }
  simpl. apply IH. intros k Hk. apply Hall. by right.
Qed.

(** What a run that returns has done, in terms of the failures [T] it
    reported. *)
Lemma runCheck_effect inp st0 st' order :
  (∀ l, length (order l) = length l) →
  runCheck_in_order order inp st0 = Some st' →
  ∃ T,
    failures (log st') = failures (log st0) ++ T ∧
    tFlags st' = vec_alter_all set_interp (participants T) (tFlags st0) ∧
    NumAnyErrors st' =
      Nat.iter (length T) (vec_alter Int32.incr 0) (NumAnyErrors st0) ∧
    NumInterpErrors st' =
      Nat.iter (length T) (vec_alter Int32.incr 0) (NumInterpErrors st0) ∧
    (NumStd_ (classify inp st0) ≤ Int32.max_int →
     match T with
     | [] => NumInterpErrObs st' = NumInterpErrObs st0
     | _ => ∃ x rest, NumInterpErrObs st0 = x :: rest ∧
                      NumInterpErrObs st' = Int32.incr x :: rest
     end) ∧
    (if decide (preflight_ok inp st0)
     then LevErrors_ st' =
            vec_alter_all Int32.incr (participants T)
              (replicate (Z.to_nat (numLevelsToCheck inp)) (-1)) ∧
          Forall (λ i, 0 ≤ i < Z.of_nat (length (tFlags st0)) ∧
                       0 ≤ i < numLevelsToCheck inp) (participants T)
     else T = [] ∧ LevErrors_ st' = LevErrors_ st0 ∧
          tInterp_ st' = tInterp_ st0 ∧ levels st' = levels st0).
Proof.
  intros Hord Hrun. destruct (decide (preflight_ok inp st0)) as [Hpre|Hpre].
  - destruct (runCheck_stages inp st0 st' order Hpre Hord Hrun)
      as (st1 & st2 & n' & T & Hn & Hp & Hl & HT & Hf).
    rewrite prepare_Some in Hp by done. injection Hp as <-.
    destruct HT; simpl in *. exists T.
    assert (tFlags st' = tFlags st2 ∧ NumAnyErrors st' = NumAnyErrors st2 ∧
            NumInterpErrors st' = NumInterpErrors st2 ∧
            LevErrors_ st' = LevErrors_ st2 ∧ log st' = log st2) as (-> & -> & -> & -> & ->).
    { unfold finish in Hf. destruct (0 <? n'); [|by injection Hf as <-].
      destruct (vec_upd _ _ _); [simpl in Hf|done]. by injection Hf as <-. }
    split; [|split; [done|split; [done|split; [done|split]]]].
    + rewrite sum_log0, !failures_app, failures_report. simpl.
      by rewrite app_nil_r.
    + intros Hmax. subst n'.
      assert (0 ≤ Int32.max_int) as Hpos by done.
      rewrite iter_incr in Hf by lia.
      unfold finish in Hf. destruct T as [|t T]; simpl in Hf.
      * injection Hf as <-. done.
      * destruct (vec_upd _ _ _) as [no|] eqn:Hno; [simpl in Hf|done].
        injection Hf as <-. simpl. rewrite sum_obs0 in Hno.
        apply vec_upd_alter in Hno as [Hlen ->].
        destruct (NumInterpErrObs st0) as [|x rest]; [simpl in Hlen; lia|].
        by exists x, rest.
    + split; [done|]. rewrite length_replicate in sum_range0.
      eapply Forall_impl; [exact sum_range0|]. simpl. intros i. lia.
  - rewrite (preflight_fails inp st0 Hpre) in Hrun. injection Hrun as <-.
    exists []. simpl. rewrite !failures_app. simpl.
    rewrite !app_nil_r. done.
Qed.

End Run_facts.

Section Run_claims.
Context {F : Type} {FO : FloatOps F} {EX : Externals F}.
Implicit Types (inp : Inputs F) (cls : StdLevels F) (st : State F).

Lemma set_interp_idem (x : Z) : set_interp (set_interp x) = set_interp x.
Proof.
  unfold set_interp. by rewrite <- Z.lor_assoc, Z.lor_diag.
Qed.

Lemma vec_get_iter_alter (f : Z → Z) (k : nat) (l : list Z) :
  vec_get (Nat.iter k (vec_alter f 0) l) 0 = Nat.iter k f <$> vec_get l 0.
Proof.
  induction k as [|k IH]; simpl.
  - by destruct (vec_get l 0).
  - rewrite vec_get_vec_alter, decide_True, IH by done.
    by destruct (vec_get l 0).
Qed.

(** C4: a standard level that fails the tolerance test adds one to
    [NumAnyErrors] and to [NumInterpErrors], sets the interpolation flag of
    the level and of its two brackets, and adds one to [LevErrors_] at each
    of the three; over a run, [LevErrors_] at a level is -1 plus one for
    every time the level is the centre or a bracket of a failure. The
    additions are those of [int]: one more, unless the value was the
    largest [int]. *)
Theorem failure_bookkeeping inp :
  (∀ cls tObsFinal st n j jlev SigB SigA PStd lJ lB lA tJ tB tA,
     evaluated_level inp cls tObsFinal (tFlags st) j jlev SigB SigA
                     PStd lJ lB lA tJ tB tA →
     writable inp st jlev SigB SigA →
     out_of_tolerance (options_ inp) PStd tJ (interpolate lJ lB lA tB tA) = true →
     ∃ st' n',
       body inp cls tObsFinal j (st, n) = Some (st', n') ∧
       vec_get (NumAnyErrors st') 0 = Int32.incr <$> vec_get (NumAnyErrors st) 0 ∧
       vec_get (NumInterpErrors st') 0 =
         Int32.incr <$> vec_get (NumInterpErrors st) 0 ∧
       (∀ i, i ∈ [jlev; SigB; SigA] →
             ∃ fl, vec_get (tFlags st) i = Some fl ∧
                   vec_get (tFlags st') i = Some (Z.lor fl InterpolationFlag)) ∧
       (∀ i, vec_get (LevErrors_ st') i =
             Nat.iter (count_occ Z.eq_dec [jlev; SigB; SigA] i) Int32.incr
               <$> vec_get (LevErrors_ st) i)) ∧
  (∀ x, Int32.min_int ≤ x < Int32.max_int → Int32.incr x = x + 1) ∧
  (∀ st0, well_formed inp st0 →
     ∃ st' T,
       runCheck inp st0 = Some st' ∧
       failures (log st') = failures (log st0) ++ T ∧
       vec_get (NumAnyErrors st') 0 =
         Nat.iter (length T) Int32.incr <$> vec_get (NumAnyErrors st0) 0 ∧
       vec_get (NumInterpErrors st') 0 =
         Nat.iter (length T) Int32.incr <$> vec_get (NumInterpErrors st0) 0 ∧
       ∀ i, 0 ≤ i < numLevelsToCheck inp →
            vec_get (LevErrors_ st') i =
            Some (Nat.iter (count_occ Z.eq_dec (participants T) i)
                           Int32.incr (-1))).
Proof.
  split; [|split].
  - intros cls tObsFinal st n j jlev SigB SigA PStd lJ lB lA tJ tB tA Hev Hw Hout.
    pose proof (body_evaluated _ _ _ _ n _ _ _ _ _ _ _ _ _ _ _ Hev Hw) as Hb.
    simpl in Hb. rewrite Hout in Hb.
    eexists _, _. split; [exact Hb|]. simpl.
    change (vec_alter set_interp SigA _)
      with (vec_alter_all set_interp [jlev; SigB; SigA] (tFlags st)).
    change (vec_alter Int32.incr SigA _)
      with (vec_alter_all Int32.incr [jlev; SigB; SigA] (LevErrors_ st)).
    rewrite !vec_get_vec_alter, !decide_True by done.
    split; [done|]. split; [done|]. split.
    + intros i Hi. destruct Hw as (_ & _ & _ & Hidx).
      destruct (Hidx i Hi) as (Hfl & _).
      destruct (proj2 (vec_get_is_Some (tFlags st) i) Hfl) as [fl Hget].
      exists fl. split; [done|].
      rewrite vec_get_vec_alter_all_idem by apply set_interp_idem.
      rewrite decide_True by done. by rewrite Hget.
    + intros i. apply vec_get_vec_alter_all.
  - apply incr_small.
  - intros st0 Hwf.
    destruct (runCheck_defined inp st0 id Hwf) as [st' Hrun]; [done|].
    destruct (runCheck_effect inp st0 st' id) as (T & Hlog & _ & Hany & Hint & _ & Hlev);
      [done|done|].
    rewrite decide_True in Hlev by apply Hwf. destruct Hlev as [Hlev _].
    exists st', T. split; [done|]. split; [done|].
    rewrite Hany, Hint, Hlev, !vec_get_iter_alter.
    split; [done|]. split; [done|].
    intros i Hi. rewrite vec_get_vec_alter_all.
    unfold vec_get at 1. rewrite decide_True by lia.
    rewrite lookup_replicate_2 by lia. done.
Qed.

(** C5: a standard level is passed over, the state and the error count
    staying as they are, when there are too few significant levels, when a
    bracket is missing, when the pressure from the lower bracket to the
    level or from the level to the upper bracket exceeds [BigGap], or when
    the two brackets have the same log-pressure. A profile without standard
    levels, or whose standard levels are all passed over, comes out with
    its flags and counters as they were, [tInterp_] all missing values and
    [LevErrors_] all -1. *)
Theorem guards_skip_level inp :
  (∀ cls tObsFinal st n j,
     guard_skips inp cls (tFlags st) j →
     body inp cls tObsFinal j (st, n) = Some (st, n)) ∧
  (∀ st0,
     preflight_ok inp st0 →
     0 ≤ numLevelsToCheck inp →
     NumStd_ (classify inp st0) = 0 ∨
     (∀ j, 0 ≤ j < NumStd_ (classify inp st0) →
           surface_level (classify inp st0) (tFlags st0) j ∨
           guard_skips inp (classify inp st0) (tFlags st0) j) →
     ∃ st',
       runCheck inp st0 = Some st' ∧
       tFlags st' = tFlags st0 ∧
       NumAnyErrors st' = NumAnyErrors st0 ∧
       NumInterpErrors st' = NumInterpErrors st0 ∧
       NumInterpErrObs st' = NumInterpErrObs st0 ∧
       tInterp_ st' =
         replicate (Z.to_nat (numLevelsToCheck inp)) missingValueFloat ∧
       LevErrors_ st' = replicate (Z.to_nat (numLevelsToCheck inp)) (-1) ∧
       failures (log st') = failures (log st0)).
Proof.
  split.
  - intros cls tObsFinal st n j. apply body_guard.
  - intros st0 Hpre Hn Hskip. unfold runCheck.
    rewrite preflight_passes, prepare_Some by done. simpl.
    rewrite loop_all_skipped.
    + simpl. eexists. split; [done|]. simpl.
      rewrite failures_app. simpl. by rewrite app_nil_r.
    + simpl. intros j Hj. destruct Hskip as [H0|Hall].
      * rewrite H0 in Hj. rewrite seqZ_nil in Hj by done.
        by apply elem_of_nil in Hj.
      * apply Hall. apply list_elem_of_lookup in Hj as [i Hi].
        apply lookup_seqZ in Hi. lia.
Qed.

(** C7: when one of the five vectors is empty, or they are not all of one
    size, [runCheck] logs a warning, one text for the empty vector and
    another for the sizes, and returns with the flags, the counters and
    the members of the check as they were. *)
Theorem invalid_vectors_abort inp st :
  let empty := pressures inp = [] ∨ tObs inp = [] ∨ tBkg inp = [] ∨
               tFlags st = [] ∨ tObsCorrection inp = [] in
  let same_size := length (tObs inp) = length (pressures inp) ∧
                   length (tBkg inp) = length (pressures inp) ∧
                   length (tFlags st) = length (pressures inp) ∧
                   length (tObsCorrection inp) = length (pressures inp) in
  empty ∨ ¬ same_size →
  ∃ st' w,
    runCheck inp st = Some st' ∧
    log st' = log st ++ [Debug " Interpolation check"; Warning w] ∧
    (empty → w = warn_empty) ∧
    (¬ empty → w = warn_size) ∧
    warn_empty ≠ warn_size ∧
    tFlags st' = tFlags st ∧
    NumAnyErrors st' = NumAnyErrors st ∧
    NumInterpErrors st' = NumInterpErrors st ∧
    NumInterpErrObs st' = NumInterpErrObs st ∧
    levels st' = levels st ∧
    LevErrors_ st' = LevErrors_ st ∧
    tInterp_ st' = tInterp_ st.
Proof.
  intros empty same_size Hbad.
  assert (anyVectorEmpty (sizes inp st) = true ↔ empty) as Hempty.
  { unfold anyVectorEmpty, sizes, empty. simpl.
    rewrite !orb_true_iff, !Nat.eqb_eq, !length_zero_iff_nil.
    intuition discriminate. }
  assert (¬ preflight_ok inp st) as Hpre.
  { intros Hok. destruct (preflight_sizes inp st Hok) as (Hne & H1 & H2 & H3 & H4).
    destruct Hok as [He _]. destruct Hbad as [Hbad|Hbad].
    - apply Hempty in Hbad. congruence.
    - apply Hbad. by repeat split. }
  unfold runCheck. rewrite (preflight_fails inp st Hpre).
  destruct (anyVectorEmpty (sizes inp st)) eqn:He.
  - eexists _, warn_empty. split; [done|]. simpl. rewrite <- app_assoc.
    split; [done|]. split; [done|]. split; [|done].
    intros Hne. destruct Hne. by apply Hempty.
  - eexists _, warn_size. split; [done|]. simpl. rewrite <- app_assoc.
    split; [done|]. split; [|done].
    intros Hy. apply Hempty in Hy. congruence.
Qed.

(** C8: in one run of the check [NumInterpErrObs] goes up by one when at
    least one standard level failed the tolerance test, however many did,
    and stays as it was when none did. *)
Theorem NumInterpErrObs_once_per_run inp st0 :
  (well_formed inp st0 → is_Some (runCheck inp st0)) ∧
  ∀ st',
    runCheck inp st0 = Some st' →
    NumStd_ (classify inp st0) ≤ Int32.max_int →
    ∃ T,
      failures (log st') = failures (log st0) ++ T ∧
      match T with
      | [] => NumInterpErrObs st' = NumInterpErrObs st0
      | _ => ∃ x rest,
               NumInterpErrObs st0 = x :: rest ∧
               NumInterpErrObs st' = Int32.incr x :: rest ∧
               (Int32.min_int ≤ x < Int32.max_int → Int32.incr x = x + 1)
      end.
Proof.
  split.
  - intros Hwf. by apply runCheck_defined.
  - intros st' Hrun Hmax.
    destruct (runCheck_effect inp st0 st' id) as (T & Hlog & _ & _ & _ & Hobs & _);
      [done|done|].
    exists T. split; [done|]. specialize (Hobs Hmax).
    destruct T as [|t T]; [done|].
    destruct Hobs as (x & rest & H0 & H1). exists x, rest.
    repeat split; try done. apply incr_small.
Qed.

(** C10: [runCheck] never clears a bit of [tFlags]; the only bit it sets
    is the interpolation flag, at the levels that are the centre or a
    bracket of a failure, and the flags of every other level are the same
    after the run as before it. *)
Theorem flags_only_gain_interpolation_flag inp st0 :
  (well_formed inp st0 → is_Some (runCheck inp st0)) ∧
  ∀ st',
    runCheck inp st0 = Some st' →
    ∃ T,
      failures (log st') = failures (log st0) ++ T ∧
      length (tFlags st') = length (tFlags st0) ∧
      ∀ i fl,
        vec_get (tFlags st0) i = Some fl →
        ∃ fl',
          vec_get (tFlags st') i = Some fl' ∧
          fl' = (if decide (i ∈ participants T)
                 then Z.lor fl InterpolationFlag else fl) ∧
          ∀ b, Z.testbit fl b = true → Z.testbit fl' b = true.
Proof.
  split.
  - intros Hwf. by apply runCheck_defined.
  - intros st' Hrun.
    destruct (runCheck_effect inp st0 st' id) as (T & Hlog & Hfl & _);
      [done|done|].
    exists T. split; [done|]. rewrite Hfl. split; [apply length_vec_alter_all|].
    intros i fl Hget.
    rewrite vec_get_vec_alter_all_idem by apply set_interp_idem.
    rewrite Hget. simpl. eexists. split; [done|].
    destruct (decide (i ∈ participants T)); simpl.
    + split; [done|]. intros b Hb. unfold set_interp.
      destruct (Z.neg_nonneg_cases b) as [Hneg|Hpos].
      * by rewrite Z.testbit_neg_r in Hb.
      * rewrite Z.lor_spec, Hb. done.
    + done.
Qed.

End Run_claims.

(** ** Order and repetition *)

Section Static.
Context {F : Type} {FO : FloatOps F} {EX : Externals F}.
Implicit Types (inp : Inputs F) (cls : StdLevels F) (st : State F).

Hypothesis flags_apart : Z.land InterpolationFlag SurfaceLevelFlag = 0.

Lemma surface_clear_lookup (fl1 fl2 : list Z) i :
  surface_clear fl1 = surface_clear fl2 →
  (λ fl, Z.land fl SurfaceLevelFlag =? 0) <$> vec_get fl1 i =
  (λ fl, Z.land fl SurfaceLevelFlag =? 0) <$> vec_get fl2 i.
Proof.
  intros Hsc. unfold vec_get. case_decide; [|done].
  rewrite <- !list_lookup_fmap. unfold surface_clear in Hsc. by rewrite Hsc.
Qed.

Lemma judge_surface_clear inp cls tObsFinal fl1 fl2 j :
  surface_clear fl1 = surface_clear fl2 →
  judge inp cls tObsFinal fl1 j = judge inp cls tObsFinal fl2 j.
Proof.
  intros Hsc. unfold judge.
  destruct (vec_get (StdLev_ cls) j) as [jlev|]; [simpl|done].
  pose proof (surface_clear_lookup fl1 fl2 jlev Hsc) as Hl.
  destruct (vec_get fl1 jlev) as [x1|], (vec_get fl2 jlev) as [x2|];
    simpl in *; try done.
  injection Hl as ->. done.
Qed.

Lemma surface_clear_set_interp (fl : list Z) i :
  surface_clear (vec_alter set_interp i fl) = surface_clear fl.
Proof.
  unfold surface_clear, vec_alter. case_decide; [|done].
  rewrite (list_fmap_alter _ set_interp id).
  - by apply list_alter_id.
  - apply Forall_forall. intros x _. unfold set_interp. simpl.
    by rewrite Z.land_lor_distr_l, flags_apart, Z.lor_0_r.
Qed.

Lemma surface_clear_marked (fl : list Z) idx :
  surface_clear (vec_alter_all set_interp idx fl) = surface_clear fl.
Proof.
  unfold vec_alter_all. revert fl.
  induction idx as [|i idx IH]; intros fl; simpl; [done|].
  by rewrite IH, surface_clear_set_interp.
Qed.

Lemma surface_clear_apply_total o (sn : State F * Z) :
  surface_clear (tFlags (apply_total o sn).1) = surface_clear (tFlags sn.1).
Proof.
  destruct o as [|jlev SigB SigA v [|]]; simpl; [done| |done].
  change (vec_alter set_interp SigA _)
    with (vec_alter_all set_interp [jlev; SigB; SigA] (tFlags sn.1)).
  apply surface_clear_marked.
Qed.

Lemma applicable_same_shape inp o st st' :
  same_shape st st' → applicable inp o st → applicable inp o st'.
Proof.
  intros (Hfl & Hna & Hni & Hle & Hti).
  destruct o as [|jlev SigB SigA v failed]; [done|]. simpl.
  unfold writable. rewrite Hfl, Hna, Hni, Hle, Hti. done.
Qed.

Lemma same_shape_apply_total o st n :
  same_shape st (apply_total o (st, n)).1.
Proof.
  destruct o as [|jlev SigB SigA v [|]]; unfold same_shape; simpl;
    rewrite ?length_vec_alter; done.
Qed.

Lemma same_shape_sym st1 st2 : same_shape st1 st2 → same_shape st2 st1.
Proof. unfold same_shape. intros (? & ? & ? & ? & ?). repeat split; congruence. Qed.

(** With the two flags apart, the outcome of every level is settled by
    the flags at the start of the loop, and so is whether the loop stays
    within its vectors. *)
Lemma loop_static inp cls tObsFinal flags0 js st n sn' :
  surface_clear (tFlags st) = surface_clear flags0 →
  loop inp cls tObsFinal js (st, n) = Some sn' ↔
  Forall (λ j, is_Some (judge inp cls tObsFinal flags0 j) ∧
               applicable inp (outcome_of inp cls tObsFinal flags0 j) st) js ∧
  sn' = foldl (λ s j, apply_total (outcome_of inp cls tObsFinal flags0 j) s)
              (st, n) js.
Proof.
  revert st n. induction js as [|j js IH]; intros st n Hsc; simpl.
  - split.
    + intros [= <-]. by split.
    + intros [_ ->]. done.
  - rewrite body_judge, (judge_surface_clear _ _ _ _ flags0 j Hsc).
    rewrite Forall_cons.
    destruct (judge inp cls tObsFinal flags0 j) as [o|] eqn:Hj; simpl.
    + assert (outcome_of inp cls tObsFinal flags0 j = o) as ->.
      { unfold outcome_of. by rewrite Hj. }
      destruct (apply_outcome inp o (st, n)) as [[st1 n1]|] eqn:Ha; simpl.
      * apply apply_outcome_spec in Ha as [Happ Heq].
        assert (same_shape st st1) as Hshape.
        { pose proof (same_shape_apply_total o st n) as Hs.
          by rewrite <- Heq in Hs. }
        rewrite <- Heq. rewrite IH.
        -- split.
           ++ intros [Hall ->]. split; [|done]. split; [by split; [eexists|]|].
              eapply Forall_impl; [exact Hall|]. simpl.
              intros k [? ?]. split; [done|].
              eapply applicable_same_shape; [|done]. by apply same_shape_sym.
           ++ intros [[_ Hall] ->]. split; [|done].
              eapply Forall_impl; [exact Hall|]. simpl.
              intros k [? ?]. split; [done|].
              by eapply applicable_same_shape.
        -- pose proof (surface_clear_apply_total o (st, n)) as Hs.
           rewrite <- Heq in Hs. simpl in Hs. congruence.
      * split; [done|]. intros [[[_ Happ] _] _].
        assert (is_Some (apply_outcome inp o (st, n))) as [? ?]; [|congruence].
        eexists. apply apply_outcome_spec. by split.
    + split; [done|]. intros [[[[? ?] _] _] _]. done.
Qed.

End Static.

Section Effects.
Context {F : Type} {FO : FloatOps F} {EX : Externals F}.
Implicit Types (inp : Inputs F) (cls : StdLevels F) (st : State F).
Implicit Types (o : Outcome F) (os : list (Outcome F)).

Lemma fail_count_cons o os :
  fail_count (o :: os) = ((if has_failed o then 1 else 0) + fail_count os)%nat.
Proof.
  unfold fail_count. rewrite filter_cons.
  case_decide as Hd; destruct (has_failed o); simpl; congruence.
Qed.

Lemma effect_fields os st n :
  let st' := (effect os (st, n)).1 in
  tFlags st' = vec_alter_all set_interp (os ≫= touched) (tFlags st) ∧
  LevErrors_ st' = vec_alter_all Int32.incr (os ≫= touched) (LevErrors_ st) ∧
  NumAnyErrors st' =
    Nat.iter (fail_count os) (vec_alter Int32.incr 0) (NumAnyErrors st) ∧
  NumInterpErrors st' =
    Nat.iter (fail_count os) (vec_alter Int32.incr 0) (NumInterpErrors st) ∧
  (effect os (st, n)).2 = Nat.iter (fail_count os) Int32.incr n ∧
  NumInterpErrObs st' = NumInterpErrObs st ∧
  levels st' = levels st ∧
  tInterp_ st' = foldl write_interp (tInterp_ st) os.
Proof.
  revert st n. induction os as [|o os IH]; intros st n; [done|].
  unfold effect. simpl. fold (effect os (apply_total o (st, n))).
  destruct (apply_total o (st, n)) as [st1 n1] eqn:Heq.
  destruct (IH st1 n1) as (H1 & H2 & H3 & H4 & H5 & H6 & H7 & H8).
  rewrite H1, H2, H3, H4, H5, H6, H7, H8, fail_count_cons.
  rewrite vec_alter_all_app.
  destruct o as [|jlev SigB SigA v [|]]; simpl in Heq; injection Heq as <- <-;
    simpl; repeat split; try done; symmetry; exact (Nat.iter_succ_r _ _ _).
Qed.

Lemma write_interp_perm os os' (ti : list F) :
  os ≡ₚ os' → NoDup (omap centre os) →
  foldl write_interp ti os = foldl write_interp ti os'.
Proof.
  intros Hp. revert ti.
  induction Hp as [|o os os' Hp IH|o1 o2 os|os1 os2 os3 Hp1 IH1 Hp2 IH2];
    intros ti Hnd; simpl.
  - done.
  - apply IH. destruct o; simpl in Hnd; [done|]. by apply NoDup_cons in Hnd as [_ ?].
  - f_equal. destruct o1 as [|j1 B1 A1 v1 f1], o2 as [|j2 B2 A2 v2 f2];
      simpl in *; try done.
    apply vec_alter_comm_ne. apply NoDup_cons in Hnd as [Hnin _].
    intros ->. apply Hnin. left.
  - rewrite IH1 by done. apply IH2. by rewrite <- Hp1.
Qed.

Lemma effect_perm os os' st n :
  os ≡ₚ os' → NoDup (omap centre os) →
  forget_log (effect os (st, n)).1 = forget_log (effect os' (st, n)).1 ∧
  (effect os (st, n)).2 = (effect os' (st, n)).2.
Proof.
  intros Hp Hnd.
  destruct (effect_fields os st n) as (H1 & H2 & H3 & H4 & H5 & H6 & H7 & H8).
  destruct (effect_fields os' st n) as (H1' & H2' & H3' & H4' & H5' & H6' & H7' & H8').
  assert (fail_count os = fail_count os') as Hfc.
  { unfold fail_count. by rewrite Hp. }
  assert (os ≫= touched ≡ₚ os' ≫= touched) as Ht by (by rewrite Hp).
  split; [|congruence].
  unfold forget_log. rewrite H1, H2, H3, H4, H6, H7, H8.
  rewrite H1', H2', H3', H4', H6', H7', H8', Hfc.
  rewrite (vec_alter_all_perm _ _ _ _ Ht), (vec_alter_all_perm _ _ _ _ Ht).
  by rewrite (write_interp_perm os os' _ Hp Hnd).
Qed.

Lemma finish_forget_log (st st' : State F) n :
  forget_log st = forget_log st' →
  forget_log <$> finish (st, n) = forget_log <$> finish (st', n).
Proof.
  intros Heq. unfold finish.
  injection Heq as Hfl Hna Hni Hno Hlv Hle Hti.
  destruct (0 <? n).
  - rewrite Hno. destruct (vec_upd _ _ _); [simpl|done].
    unfold forget_log. simpl. congruence.
  - simpl. unfold forget_log. congruence.
Qed.

End Effects.

Section Order.
Context {F : Type} {FO : FloatOps F} {EX : Externals F}.
Implicit Types (inp : Inputs F) (cls : StdLevels F) (st : State F).

Lemma judge_Evaluated_inv inp cls tObsFinal flags j jlev SigB SigA v failed :
  judge inp cls tObsFinal flags j = Some (Evaluated jlev SigB SigA v failed) →
  triple_of inp cls tObsFinal flags j [jlev; SigB; SigA].
Proof.
  unfold judge. intros H.
  repeat match type of H with
         | mbind _ ?x = Some _ => destruct x eqn:?; simpl in H; [|discriminate]
         | (if ?b then _ else _) = Some _ => destruct b eqn:?; [discriminate|]
         end.
  injection H as <- <- <- <- <-.
  repeat match goal with
         | H : negb _ = false |- _ => apply negb_false_iff, Z.eqb_eq in H
         | H : (_ <? _) = false |- _ => apply Z.ltb_nlt in H
         | H : _ || _ = false |- _ => apply orb_false_elim in H as [? ?]
         | H : (_ =? _) = false |- _ => apply Z.eqb_neq in H
         end.
  unfold triple_of, evaluated_level, first_reads.
  eexists _, _, _, _, _, _, _, _, _, _. split; [|done].
  eexists _, _, _, _. repeat split; try eassumption.
  eexists. split; eassumption.
Qed.

Lemma centres_NoDup inp cls tObsFinal flags js :
  NoDup js → Forall (λ j, 0 ≤ j < NumStd_ cls) js →
  disjoint_triples inp cls tObsFinal flags →
  NoDup (omap centre (outcome_of inp cls tObsFinal flags <$> js)).
Proof.
  intros Hnd Hin Hdis. induction js as [|j js IH]; simpl; [constructor|].
  apply NoDup_cons in Hnd as [Hnin Hnd].
  apply Forall_cons in Hin as [Hj0 Hin]. specialize (IH Hnd Hin).
  unfold outcome_of at 1.
  destruct (judge inp cls tObsFinal flags j) as [[|jlev SigB SigA v failed]|] eqn:Hj;
    simpl; try done.
  apply NoDup_cons. split; [|done].
  intros (o & Ho & Hc)%list_elem_of_omap.
  apply list_elem_of_fmap in Ho as (j' & -> & Hj').
  unfold outcome_of in Hc.
  destruct (judge inp cls tObsFinal flags j') as [[|jlev' B' A' v' f']|] eqn:Hj2;
    simpl in Hc; try done.
  injection Hc as ->.
  apply judge_Evaluated_inv in Hj, Hj2.
  assert (j ≠ j') as Hne by (intros ->; done).
  rewrite Forall_forall in Hin.
  apply (Hdis j j' _ _ Hj0 (Hin j' Hj') Hne Hj Hj2 jlev); left.
Qed.

Lemma triple_of_reads inp cls tObsFinal flags j t :
  triple_of inp cls tObsFinal flags j t →
  ∃ jlev SigB SigA,
    vec_get (StdLev_ cls) j = Some jlev ∧
    vec_get (SigBelow_ cls) j = Some SigB ∧
    vec_get (SigAbove_ cls) j = Some SigA ∧
    SigB ≠ -1 ∧ SigA ≠ -1 ∧ t = [jlev; SigB; SigA].
Proof.
  intros (jlev & SigB & SigA & PStd & lJ & lB & lA & tJ & tB & tA & Hev & ->).
  destruct Hev as (fl & BigGap & pB & pA & Hreads & _ & _ & HB & HA & _).
  destruct Hreads as (Hj & _ & HSB & HSA & _).
  by exists jlev, SigB, SigA.
Qed.

Hypothesis flags_apart : Z.land InterpolationFlag SurfaceLevelFlag = 0.

Lemma loop_as_effect inp cls tObsFinal flags0 js st n :
  surface_clear (tFlags st) = surface_clear flags0 →
  Forall (λ j, is_Some (judge inp cls tObsFinal flags0 j) ∧
               applicable inp (outcome_of inp cls tObsFinal flags0 j) st) js →
  loop inp cls tObsFinal js (st, n) =
  Some (effect (outcome_of inp cls tObsFinal flags0 <$> js) (st, n)).
Proof.
  intros Hsc Hall. apply (loop_static flags_apart _ _ _ flags0); [done|].
  split; [done|]. unfold effect. by rewrite foldl_fmap.
Qed.

Lemma loop_effect inp cls tObsFinal flags0 js st n sn :
  surface_clear (tFlags st) = surface_clear flags0 →
  loop inp cls tObsFinal js (st, n) = Some sn →
  Forall (λ j, is_Some (judge inp cls tObsFinal flags0 j) ∧
               applicable inp (outcome_of inp cls tObsFinal flags0 j) st) js ∧
  sn = effect (outcome_of inp cls tObsFinal flags0 <$> js) (st, n).
Proof.
  intros Hsc Hl. apply (loop_static flags_apart _ _ _ flags0) in Hl as [Hall ->];
    [|done].
  split; [done|]. unfold effect. by rewrite foldl_fmap.
Qed.

Lemma loop_order inp cls tObsFinal js js' st n :
  js' ≡ₚ js → NoDup js → Forall (λ j, 0 ≤ j < NumStd_ cls) js →
  disjoint_triples inp cls tObsFinal (tFlags st) →
  forget_log <$> (loop inp cls tObsFinal js' (st, n) ≫= finish) =
  forget_log <$> (loop inp cls tObsFinal js (st, n) ≫= finish).
Proof.
  intros Hp Hnd Hin Hdis.
  destruct (loop inp cls tObsFinal js (st, n)) as [sn|] eqn:E1;
    destruct (loop inp cls tObsFinal js' (st, n)) as [sn'|] eqn:E2.
  - apply (loop_effect _ _ _ (tFlags st)) in E1 as [_ ->]; [|done].
    apply (loop_effect _ _ _ (tFlags st)) in E2 as [_ ->]; [|done].
    assert (outcome_of inp cls tObsFinal (tFlags st) <$> js ≡ₚ
            outcome_of inp cls tObsFinal (tFlags st) <$> js') as Hpo.
    { apply fmap_Permutation. by symmetry. }
    destruct (effect_perm _ _ st n Hpo (centres_NoDup _ _ _ _ _ Hnd Hin Hdis))
      as [Hst Hn].
    destruct (effect (_ <$> js) (st, n)) as [st1 n1].
    destruct (effect (_ <$> js') (st, n)) as [st2 n2].
    cbn [fst snd] in Hst, Hn. subst n2.
    change (forget_log <$> finish (st2, n1) = forget_log <$> finish (st1, n1)).
    symmetry. by apply finish_forget_log.
  - exfalso. apply (loop_effect _ _ _ (tFlags st)) in E1 as [Hall _]; [|done].
    rewrite <- Hp in Hall.
    rewrite (loop_as_effect _ _ _ (tFlags st)) in E2 by done. done.
  - exfalso. apply (loop_effect _ _ _ (tFlags st)) in E2 as [Hall _]; [|done].
    rewrite Hp in Hall.
    rewrite (loop_as_effect _ _ _ (tFlags st)) in E1 by done. done.
  - done.
Qed.

Lemma order_of_levels inp st0 order :
  (∀ l, order l ≡ₚ l) →
  disjoint_triples inp (classify inp st0) (corrected inp) (tFlags st0) →
  forget_log <$> runCheck_in_order order inp st0 =
  forget_log <$> runCheck inp st0.
Proof.
  intros Hord Hdis. destruct (decide (preflight_ok inp st0)) as [Hpre|Hpre].
  - unfold runCheck. rewrite !preflight_passes by done.
    destruct (prepare _ _ _) as [st1|] eqn:Hp; [simpl|done].
    assert (tFlags st1 = tFlags st0) as Hfl.
    { unfold prepare in Hp.
      destruct (vec_assign _ (-1)); [simpl in Hp|done].
      destruct (vec_assign _ missingValueFloat); [simpl in Hp|done].
      by injection Hp as <-. }
    apply loop_order; [apply Hord|apply NoDup_seqZ| |by rewrite Hfl].
    apply Forall_forall. intros j Hj. apply list_elem_of_lookup in Hj as [i Hi].
    apply lookup_seqZ in Hi. lia.
  - unfold runCheck. by rewrite !(preflight_fails inp st0 Hpre).
Qed.

Lemma length_iter_alter (f : Z → Z) k (l : list Z) :
  length (Nat.iter k (vec_alter f 0) l) = length l.
Proof. induction k as [|k IH]; simpl; [done|]. by rewrite length_vec_alter. Qed.

Lemma rerun_flags inp st0 st1 :
  runCheck inp st0 = Some st1 →
  classify inp st1 = classify inp st0 →
  ∃ st2, runCheck inp st1 = Some st2 ∧ tFlags st2 = tFlags st1.
Proof.
  intros Hrun Hcls. unfold runCheck in *.
  destruct (decide (preflight_ok inp st0)) as [Hpre|Hpre].
  - destruct (runCheck_stages inp st0 st1 id Hpre ltac:(done) Hrun)
      as (p0 & e0 & n0 & T & Hn & Hp0 & Hl0 & _ & Hf0).
    rewrite prepare_Some in Hp0 by done. injection Hp0 as <-.
    set (cls := classify inp st0) in *.
    set (js := seqZ 0 (NumStd_ cls)) in *. simpl in Hl0.
    match type of Hl0 with
    | loop _ _ _ _ (?p, _) = _ => set (p0 := p) in *
    end.
    apply (loop_effect _ _ _ (tFlags st0)) in Hl0 as [Hall Heff]; [|done].
    set (os := outcome_of inp cls (corrected inp) (tFlags st0) <$> js) in *.
    destruct (effect_fields os p0 0) as (E1 & E2 & E3 & E4 & E5 & E6 & E7 & E8).
    rewrite <- Heff in E1, E2, E3, E4, E5, E6, E7, E8. simpl in *.
    assert (tFlags st1 = tFlags e0 ∧ NumAnyErrors st1 = NumAnyErrors e0 ∧
            NumInterpErrors st1 = NumInterpErrors e0 ∧
            length (NumInterpErrObs st1) = length (NumInterpErrObs e0) ∧
            ((0 <? n0) = true → NumInterpErrObs e0 ≠ []))
      as (F1 & F2 & F3 & F4 & F5).
    { unfold finish in Hf0. destruct (0 <? n0).
      - destruct (vec_upd _ _ _) as [no|] eqn:Hno; [simpl in Hf0|done].
        injection Hf0 as <-. simpl.
        apply vec_upd_alter in Hno as [Hlen ->].
        rewrite length_vec_alter. repeat split; try done.
        intros _ Hnil. rewrite Hnil in Hlen. simpl in Hlen. lia.
      - injection Hf0 as <-. repeat split; done. }
    assert (preflight_ok inp st1) as Hpre1.
    { unfold preflight_ok, sizes in *. rewrite F1, E1, length_vec_alter_all.
      exact Hpre. }
    rewrite preflight_passes, prepare_Some by done. simpl.
    rewrite Hcls. fold cls js.
    match goal with
    | |- ∃ _, loop _ _ _ _ (?p, _) ≫= _ = _ ∧ _ => set (p1 := p)
    end.
    assert (surface_clear (tFlags p1) = surface_clear (tFlags st0)) as Hsc1.
    { simpl. rewrite F1, E1. by apply surface_clear_marked. }
    assert (same_shape p0 p1) as Hshape.
    { unfold same_shape. simpl.
      rewrite F1, F2, F3, E1, E3, E4, length_vec_alter_all, !length_iter_alter.
      done. }
    rewrite (loop_as_effect _ _ _ (tFlags st0)); [|done|].
    2:{ eapply Forall_impl; [exact Hall|]. simpl. intros j [? ?].
        split; [done|]. by eapply applicable_same_shape. }
    fold os. simpl.
    destruct (effect_fields os p1 0) as (G1 & G2 & G3 & G4 & G5 & G6 & G7 & G8).
    destruct (effect os (p1, 0)) as [e1 n1] eqn:Heff1. simpl in *.
    assert (n1 = n0) as -> by congruence.
    assert (is_Some (finish (e1, n0))) as [st2 Hf1].
    { unfold finish. destruct (0 <? n0) eqn:Hpos; [|done].
      rewrite vec_upd_ok; [done|]. rewrite G6.
      specialize (F5 eq_refl).
      destruct (NumInterpErrObs st1); [|simpl; lia].
      destruct (NumInterpErrObs e0); [done|simpl in F4; lia]. }
    exists st2. split; [done|].
    assert (tFlags st2 = tFlags e1) as ->.
    { unfold finish in Hf1. destruct (0 <? n0); [|by injection Hf1 as <-].
      destruct (vec_upd _ (NumInterpErrObs e1) 0); [simpl in Hf1|done].
      by injection Hf1 as <-. }
    rewrite G1, F1, E1. apply vec_alter_all_idem, set_interp_idem.
  - rewrite (preflight_fails inp st0 Hpre) in Hrun. injection Hrun as <-.
    rewrite preflight_fails; [by eexists|]. exact Hpre.
Qed.

(** C9: when the triples of the evaluated standard levels (the level and
    its two brackets) are pairwise disjoint, the check leaves the same
    flags, counters, [LevErrors_] and [tInterp_] in whatever order it
    visits the standard levels; and a second run on the result, for which
    the classification is the same, leaves the flags as the first run left
    them. *)
Theorem order_independent_and_repeatable inp st0 order :
  (∀ l, order l ≡ₚ l) →
  disjoint_triples inp (classify inp st0) (corrected inp) (tFlags st0) →
  forget_log <$> runCheck_in_order order inp st0 =
    forget_log <$> runCheck inp st0 ∧
  (well_formed inp st0 → is_Some (runCheck inp st0)) ∧
  ∀ st1,
    runCheck inp st0 = Some st1 →
    classify inp st1 = classify inp st0 →
    ∃ st2, runCheck inp st1 = Some st2 ∧ tFlags st2 = tFlags st1.
Proof.
  intros Hord Hdis. split; [by apply order_of_levels|]. split.
  - intros Hwf. by apply runCheck_defined.
  - intros st1. apply rerun_flags.
Qed.

End Order.

(** ** The claims on the sample profiles *)

Section Samples.
Import Binary32 Sample.

Ltac conj := repeat match goal with |- _ ∧ _ => split end.

Ltac eval_eq :=
  lazymatch goal with
  | |- _ = _ => vm_compute; reflexivity
  | |- _ ≠ _ => discriminate
  | |- _ ≤ _ => vm_compute; discriminate
  | |- _ < _ => vm_compute; reflexivity
  | |- is_Some _ => eexists; vm_compute; reflexivity
  | |- _ => idtac
  end.

(** C1, as stated, fails: at 500 hPa the first band with a threshold of at
    least 500 hPa is the band of 1000 hPa, with a gap of 200 hPa, while the
    check takes the 150 hPa of the band of 500 hPa. *)
Lemma select_BigGap_not_first_band_ge :
  design_BigGap opts apart 500 = Some (of_Z 20000) ∧
  select_BigGap opts apart 500 = Some (of_Z 15000) ∧
  select_BigGap opts apart 500 ≠ design_BigGap opts apart 500.
Proof.
  split; [|split]; [vm_compute; reflexivity..|].
  vm_compute. discriminate.
Qed.

Lemma select_BigGap_first_band_le_witness :
  select_BigGap opts apart 500 = Some (hPa_to_Pa (of_Z 150)) ∧
  select_BigGap opts apart 200 = Some (of_Z 1000).
Proof.
  split.
  - apply (proj1 (select_BigGap_first_band_le opts apart 500)
                 4%nat (of_Z 150)); [|reflexivity].
    split.
    + exists (of_Z 500). split; vm_compute; reflexivity.
    + intros k s' Hk Hs'.
      destruct k as [|[|[|[|k]]]]; [..|lia]; injection Hs' as <-;
        vm_compute; reflexivity.
  - apply (proj2 (select_BigGap_first_band_le opts apart 200)).
    intros s Hs. unfold apart, classification, bands in Hs. simpl in Hs.
    rewrite !elem_of_cons, elem_of_nil in Hs.
    destruct Hs as [->|[->|[->|[->|[->|[->|[->|[]]]]]]]]; vm_compute; reflexivity.
Defined.

(** Level 1 of the profile with ten degrees more there, between the
    levels 0 and 2: it passes the guards, and its vectors are in place. *)
Lemma level1_evaluated :
  evaluated_level (EX := externals apart) (inputs bump1) apart
    (of_Z <$> bump1) clean 0 1 0 2 (of_Z 92500)
    (lp 11434964) (lp 11512925) (lp 11350407)
    (of_Z 293) (of_Z 288) (of_Z 278).
Proof.
  exists 0, (of_Z 20000), (of_Z 100000), (of_Z 85000).
  unfold first_reads, too_few_sig.
  conj; eval_eq.
  - exists 925. split; vm_compute; reflexivity.
  - vm_compute. discriminate.
Qed.

Lemma level1_writable :
  writable (inputs bump1) (prepared clean apart) 1 0 2.
Proof.
  unfold writable. simpl. split; [lia|]. split; [lia|]. split; [lia|].
  intros i. rewrite !elem_of_cons, elem_of_nil.
  intros [->|[->|[->|[]]]]; lia.
Qed.

Lemma tInterp_log_pressure_interpolation_witness :
  ∃ st' n',
    body (EX := externals apart) (inputs bump1) apart (of_Z <$> bump1) 0
         (prepared clean apart, 0) = Some (st', n') ∧
    vec_get (tInterp_ st') 1 =
    Some (fadd (of_Z 288)
            (fmul (fsub (of_Z 278) (of_Z 288))
               (fdiv (fsub (lp 11434964) (lp 11512925))
                     (fsub (lp 11350407) (lp 11512925))))).
Proof.
  exact (tInterp_log_pressure_interpolation (EX := externals apart)
           (inputs bump1) apart (of_Z <$> bump1) (prepared clean apart) 0
           0 1 0 2 (of_Z 92500) (lp 11434964) (lp 11512925) (lp 11350407)
           (of_Z 293) (of_Z 288) (of_Z 278)
           level1_evaluated level1_writable).
Defined.

Lemma tolerance_test_fails_iff_witness :
  ∃ st' n' ti,
    body (EX := externals apart) (inputs bump1) apart (of_Z <$> bump1) 0
         (prepared clean apart, 0) = Some (st', n') ∧
    vec_get (tInterp_ st') 1 = Some ti ∧
    if fgtb (fabs (fsub (of_Z 293) ti)) (fmul (of_Z 1) f_one)
    then log st' = [DebugFailed 1 0 2] ∧ n' = Int32.incr 0
    else log st' = [] ∧ n' = 0 ∧ tFlags st' = clean ∧
         NumAnyErrors st' = [0] ∧ NumInterpErrors st' = [0] ∧
         LevErrors_ st' = replicate 7 (-1).
Proof.
  exact (tolerance_test_fails_iff (EX := externals apart)
           (inputs bump1) apart (of_Z <$> bump1) (prepared clean apart) 0
           0 1 0 2 (of_Z 92500) (lp 11434964) (lp 11512925) (lp 11350407)
           (of_Z 293) (of_Z 288) (of_Z 278)
           level1_evaluated level1_writable).
Defined.

Lemma level1_out_of_tolerance :
  out_of_tolerance (options_ (inputs bump1)) (of_Z 92500) (of_Z 293)
    (interpolate (lp 11434964) (lp 11512925) (lp 11350407)
                 (of_Z 288) (of_Z 278)) = true.
Proof. vm_compute. reflexivity. Qed.

(** The profile with ten degrees more at the levels 1 and 3, level 2
    being a bracket of both, is well formed, with or without a surface
    level. *)
Lemma shared_well_formed flags :
  length flags = 7%nat →
  well_formed (EX := externals shared) (inputs bump13) (initial flags).
Proof.
  intros Hlen. split.
  - unfold preflight_ok, sizes. cbn [tFlags initial]. rewrite Hlen.
    split; vm_compute; reflexivity.
  - vm_compute. split; discriminate.
  - vm_compute. reflexivity.
  - discriminate.
  - discriminate.
  - discriminate.
  - split; [vm_compute; discriminate|].
    split; [vm_compute; lia|].
    intros j Hj. change (NumStd_ _) with 2 in Hj.
    assert (j = 0 ∨ j = 1) as [-> | ->] by lia.
    + exists 1, 0, 2, (of_Z 92500).
      conj; eval_eq.
    + exists 3, 2, 4, (of_Z 70000).
      conj; eval_eq.
  - vm_compute. discriminate.
Qed.

Lemma failure_bookkeeping_witness :
  (∃ st' n',
     body (EX := externals apart) (inputs bump1) apart (of_Z <$> bump1) 0
          (prepared clean apart, 0) = Some (st', n') ∧
     vec_get (NumAnyErrors st') 0 = Some (Int32.incr 0) ∧
     vec_get (NumInterpErrors st') 0 = Some (Int32.incr 0) ∧
     (∀ i, i ∈ [1; 0; 2] →
           ∃ fl, vec_get clean i = Some fl ∧
                 vec_get (tFlags st') i = Some (Z.lor fl (2 ^ 21))) ∧
     (∀ i, vec_get (LevErrors_ st') i =
           Nat.iter (count_occ Z.eq_dec [1; 0; 2] i) Int32.incr
             <$> vec_get (replicate 7 (-1)) i)) ∧
  (∃ st',
     runCheck (EX := externals shared) (inputs bump13) (initial clean)
       = Some st' ∧
     failures (log st') = [(1, 0, 2); (3, 2, 4)] ∧
     vec_get (NumAnyErrors st') 0 = Some 2 ∧
     vec_get (LevErrors_ st') 2 = Some 1 ∧
     vec_get (LevErrors_ st') 5 = Some (-1)).
Proof.
  split.
  - exact (proj1 (failure_bookkeeping (EX := externals apart) (inputs bump1))
             apart (of_Z <$> bump1) (prepared clean apart) 0
             0 1 0 2 (of_Z 92500) (lp 11434964) (lp 11512925) (lp 11350407)
             (of_Z 293) (of_Z 288) (of_Z 278)
             level1_evaluated level1_writable level1_out_of_tolerance).
  - destruct (proj2 (proj2 (failure_bookkeeping (EX := externals shared)
                              (inputs bump13)))
                (initial clean) (shared_well_formed clean eq_refl))
      as (st' & T & Hrun & Hlog & Hany & _ & Hlev).
    exists st'. split; [exact Hrun|].
    assert (T = [(1, 0, 2); (3, 2, 4)]) as ->.
    { pose proof Hrun as Hst. vm_compute in Hst. injection Hst as Hst.
      rewrite <- Hst in Hlog. vm_compute in Hlog. congruence. }
    split; [exact Hlog|]. split; [exact Hany|]. split.
    + apply (Hlev 2). vm_compute. split; [discriminate|reflexivity].
    + apply (Hlev 5). vm_compute. split; [discriminate|reflexivity].
Defined.

Lemma NumInterpErrObs_once_per_run_witness :
  ∃ st',
    runCheck (EX := externals shared) (inputs bump13) (initial clean)
      = Some st' ∧
    failures (log st') = [(1, 0, 2); (3, 2, 4)] ∧
    NumInterpErrObs st' = [Int32.incr 0].
Proof.
  destruct (proj1 (NumInterpErrObs_once_per_run (EX := externals shared)
                     (inputs bump13) (initial clean))
              (shared_well_formed clean eq_refl))
    as [st' Hrun].
  destruct (proj2 (NumInterpErrObs_once_per_run (EX := externals shared)
                     (inputs bump13) (initial clean)) st' Hrun)
    as (T & Hlog & Hobs); [vm_compute; discriminate|].
  exists st'. split; [exact Hrun|].
  assert (T = [(1, 0, 2); (3, 2, 4)]) as ->.
  { pose proof Hrun as Hst. vm_compute in Hst. injection Hst as Hst.
    rewrite <- Hst in Hlog. vm_compute in Hlog. congruence. }
  split; [exact Hlog|].
  destruct Hobs as (x & rest & Hx & Hobs & _).
  change (NumInterpErrObs (initial clean)) with [0] in Hx.
  injection Hx as <- <-. exact Hobs.
Defined.

Lemma flags_only_gain_interpolation_flag_witness :
  ∃ st',
    runCheck (EX := externals shared) (inputs bump13) (initial surface1)
      = Some st' ∧
    failures (log st') = [(3, 2, 4)] ∧
    vec_get (tFlags st') 1 = Some (2 ^ 18) ∧
    vec_get (tFlags st') 3 = Some (Z.lor 0 (2 ^ 21)) ∧
    vec_get (tFlags st') 5 = Some 0.
Proof.
  destruct (proj1 (flags_only_gain_interpolation_flag (EX := externals shared)
                     (inputs bump13) (initial surface1))
              (shared_well_formed surface1 eq_refl))
    as [st' Hrun].
  destruct (proj2 (flags_only_gain_interpolation_flag (EX := externals shared)
                     (inputs bump13) (initial surface1)) st' Hrun)
    as (T & Hlog & Hlen & Hfl).
  exists st'. split; [exact Hrun|].
  assert (T = [(3, 2, 4)]) as ->.
  { pose proof Hrun as Hst. vm_compute in Hst. injection Hst as Hst.
    rewrite <- Hst in Hlog. vm_compute in Hlog. congruence. }
  split; [exact Hlog|].
  destruct (Hfl 1 (2 ^ 18) eq_refl) as (f1 & H1 & -> & _).
  destruct (Hfl 3 0 eq_refl) as (f3 & H3 & -> & _).
  destruct (Hfl 5 0 eq_refl) as (f5 & H5 & -> & _).
  split; [exact H1|]. split; [exact H3|exact H5].
Defined.

Lemma surface_level_not_evaluated_witness :
  surface_level (EX := externals apart) apart surface1 0 ∧
  body (EX := externals apart) (inputs bump1) apart (of_Z <$> bump1) 0
       (prepared surface1 apart, 0) = Some (prepared surface1 apart, 0).
Proof.
  assert (surface_level (EX := externals apart) apart surface1 0) as Hs.
  { exists 1, (2 ^ 18). split; [vm_compute; reflexivity|].
    split; [vm_compute; reflexivity|]. vm_compute. discriminate. }
  split; [exact Hs|].
  exact (proj1 (surface_level_not_evaluated (EX := externals apart)
                  (inputs bump1) apart (of_Z <$> bump1)
                  (prepared surface1 apart) 0 0 Hs)).
Defined.

Lemma level1_unbracketed :
  guard_skips (inputs bump1) unbracketed clean 0.
Proof.
  exists 1, 0, (-1), 2, (of_Z 92500), (of_Z 20000). split.
  - unfold first_reads.
    conj; eval_eq.
    exists 925. split; vm_compute; reflexivity.
  - right. left. left. reflexivity.
Qed.

Lemma guards_skip_level_witness :
  body (EX := externals unbracketed) (inputs bump1) unbracketed
       (of_Z <$> bump1) 0 (prepared clean unbracketed, 0)
    = Some (prepared clean unbracketed, 0) ∧
  ∃ st',
    runCheck (EX := externals unbracketed) (inputs bump1) (initial clean)
      = Some st' ∧
    tFlags st' = clean ∧
    NumAnyErrors st' = [0] ∧
    NumInterpErrors st' = [0] ∧
    NumInterpErrObs st' = [0] ∧
    tInterp_ st' = replicate 7 (SFopp (SFmax_float prec emax)) ∧
    LevErrors_ st' = replicate 7 (-1) ∧
    failures (log st') = [].
Proof.
  split.
  - exact (proj1 (guards_skip_level (EX := externals unbracketed) (inputs bump1))
             unbracketed (of_Z <$> bump1) (prepared clean unbracketed) 0 0
             level1_unbracketed).
  - apply (proj2 (guards_skip_level (EX := externals unbracketed) (inputs bump1))
             (initial clean)).
    + split; vm_compute; reflexivity.
    + vm_compute. discriminate.
    + right. intros j Hj. change (NumStd_ _) with 1 in Hj.
      assert (j = 0) as -> by lia. right. exact level1_unbracketed.
Defined.

Lemma invalid_vectors_abort_witness :
  ∃ st',
    runCheck (EX := externals apart) no_pressures (initial clean) = Some st' ∧
    log st' = [Debug " Interpolation check"; Warning warn_empty] ∧
    tFlags st' = clean ∧
    NumInterpErrObs st' = [0] ∧
    LevErrors_ st' = [] ∧
    tInterp_ st' = [].
Proof.
  destruct (invalid_vectors_abort (EX := externals apart) no_pressures
              (initial clean) (or_introl (or_introl eq_refl)))
    as (st' & w & Hrun & Hlog & Hw & _ & _ & Hfl & _ & _ & Hobs & _ & Hle & Hti).
  exists st'. rewrite (Hw (or_introl eq_refl)) in Hlog.
  split; [exact Hrun|]. split; [exact Hlog|]. split; [exact Hfl|].
  split; [exact Hobs|]. split; [exact Hle|exact Hti].
Defined.

(** In the classification [apart] the two standard levels have the
    triples 1, 0, 2 and 5, 4, 6. *)
Lemma apart_triples tObsFinal flags j t :
  triple_of (EX := externals apart) (inputs bump15) apart tObsFinal flags j t →
  (j = 0 ∧ t = [1; 0; 2]) ∨ (j = 1 ∧ t = [5; 4; 6]).
Proof.
  intros (jlev & SigB & SigA & Hj & HB & HA & HBne & _ & ->)%triple_of_reads.
  pose proof (vec_get_lt _ _ _ Hj) as Hlt.
  change (Z.of_nat (length (StdLev_ apart))) with 7 in Hlt.
  assert (j = 0 ∨ j = 1 ∨ j = 2 ∨ j = 3 ∨ j = 4 ∨ j = 5 ∨ j = 6)
    as [->|[->|[->|[->|[->|[->| ->]]]]]] by lia;
    vm_compute in Hj, HB, HA;
    injection Hj as <-; injection HB as <-; injection HA as <-;
    first [left; split; reflexivity | right; split; reflexivity
          | exfalso; apply HBne; reflexivity].
Qed.

Lemma apart_disjoint tObsFinal flags :
  disjoint_triples (EX := externals apart) (inputs bump15) apart tObsFinal flags.
Proof.
  intros j1 j2 t1 t2 _ _ Hne H1 H2 i.
  apply apart_triples in H1 as [[-> ->]|[-> ->]];
    apply apart_triples in H2 as [[-> ->]|[-> ->]]; try (by destruct Hne).
  all: rewrite !elem_of_cons, !elem_of_nil; lia.
Qed.

Lemma apart_well_formed :
  well_formed (EX := externals apart) (inputs bump15) (initial clean).
Proof.
  split.
  - split; vm_compute; reflexivity.
  - vm_compute. split; discriminate.
  - vm_compute. reflexivity.
  - discriminate.
  - discriminate.
  - discriminate.
  - split; [vm_compute; discriminate|].
    split; [vm_compute; lia|].
    intros j Hj. change (NumStd_ _) with 2 in Hj.
    assert (j = 0 ∨ j = 1) as [-> | ->] by lia.
    + exists 1, 0, 2, (of_Z 92500).
      conj; eval_eq.
    + exists 5, 4, 6, (of_Z 40000).
      conj; eval_eq.
  - vm_compute. discriminate.
Qed.

Lemma order_independent_and_repeatable_witness :
  forget_log <$> runCheck_in_order (EX := externals apart) reverse
                   (inputs bump15) (initial clean) =
    forget_log <$> runCheck (EX := externals apart) (inputs bump15)
                     (initial clean) ∧
  ∃ st1 st2,
    runCheck (EX := externals apart) (inputs bump15) (initial clean)
      = Some st1 ∧
    runCheck (EX := externals apart) (inputs bump15) st1 = Some st2 ∧
    tFlags st2 = tFlags st1.
Proof.
  destruct (order_independent_and_repeatable (EX := externals apart)
              eq_refl (inputs bump15) (initial clean) reverse
              reverse_Permutation (apart_disjoint _ _))
    as (Horder & Hdef & Hagain).
  split; [exact Horder|].
  destruct (Hdef apart_well_formed) as [st1 Hrun].
  destruct (Hagain st1 Hrun eq_refl) as (st2 & Hrun2 & Hfl).
  exists st1, st2. split; [exact Hrun|]. split; [exact Hrun2|exact Hfl].
Defined.

End Samples.
